(** * Ts-Langchain-Crawling: the crawl / index / summarise script

    A shallow embedding of [src/index.ts].  The script is one asynchronous
    function [main] that drives third-party collaborators (axios, fs, cheerio,
    the text splitter, the HNSW vector store, the chat model, moment); the
    collaborators are an environment record of oracles, the mutable globals and
    the observable effects are an explicit state, and [await] on a rejected
    promise is the [Throw] completion of a small state-and-exception monad. *)

From Stdlib Require Import List ZArith QArith String Ascii Bool Arith Lia.
From Stdlib Require Import Sorted Permutation DecimalString.
From Stdlib Require Import Reals Qreals Lra.
Import ListNotations.

Open Scope string_scope.
Open Scope list_scope.
Open Scope Z_scope.

(* ===================================================================== *)
(** * JavaScript values the script handles                                *)
(* ===================================================================== *)

Module Js.

(** An [Error] object: its [name] is the error kind. *)
Record Error : Type := mkError { name : string; message : string }.

(** The completion of a call (or of an awaited promise). *)
Inductive Completion (A : Type) : Type :=
| Normal (value : A)
| Throw (reason : Error).

Arguments Normal {A} value.
Arguments Throw {A} reason.

(** [x || ""] on an environment variable that may be undefined. *)
Definition or_empty (v : option string) : string :=
  match v with
  | Some s => if String.eqb s "" then "" else s
  | None => ""
  end.

Definition newline : string := String (ascii_of_nat 10) "".

(** Decimal rendering of a non-negative integer. *)
Definition dec (n : Z) : string := NilZero.string_of_uint (N.to_uint (Z.to_N n)).

Definition digit (d : Z) : ascii := ascii_of_nat (48 + Z.to_nat d).

Fixpoint zeros (n : nat) : string :=
  match n with O => "" | S k => String "0" (zeros k) end.

(** [String.prototype.padStart(width, "0")]. *)
Definition pad_start (width : nat) (s : string) : string :=
  zeros (width - String.length s) ++ s.

End Js.

Import Js.

(** A langchain [Document]. *)
Record Document : Type := mkDocument {
  pageContent : string;
  metadata : list (string * string)
}.

(* ===================================================================== *)
(** * moment-timezone                                                      *)
(* ===================================================================== *)

Module Moment.

(** A moment pinned to a zone: the instant (milliseconds since the epoch) and
    the zone's offset from UTC in seconds. *)
Record t : Type := mk { instant_ms : Z; utc_offset_s : Z }.

(** Modelled from the spec: the tz database entry of the designated timezone.
    [Asia/Seoul] has been at UTC+9 with no daylight saving since October 1988,
    which is the offset used here; any other zone name is left at UTC. *)
Definition zone_offset (zone : string) : Z :=
  if String.eqb zone "Asia/Seoul" then 9 * 3600 else 0.

Definition tz (instant : Z) (zone : string) : t :=
  mk instant (zone_offset zone).

Definition local_seconds (m : t) : Z := instant_ms m / 1000 + utc_offset_s m.

(** Proleptic Gregorian date of a day number counted from 1970-01-01. *)
Definition civil_from_days (days : Z) : Z * Z * Z :=
  let z := days + 719468 in
  let era := z / 146097 in
  let doe := z - era * 146097 in
  let yoe := (doe - doe / 1460 + doe / 36524 - doe / 146096) / 365 in
  let doy := doe - (365 * yoe + yoe / 4 - yoe / 100) in
  let mp := (5 * doy + 2) / 153 in
  let d := doy - (153 * mp + 2) / 5 + 1 in
  let m := if mp <? 10 then mp + 3 else mp - 9 in
  let y := yoe + era * 400 in
  (if m <=? 2 then y + 1 else y, m, d).

Definition year (m : t) : Z := fst (fst (civil_from_days (local_seconds m / 86400))).
Definition month (m : t) : Z := snd (fst (civil_from_days (local_seconds m / 86400))).
Definition date (m : t) : Z := snd (civil_from_days (local_seconds m / 86400)).
Definition hours (m : t) : Z := (local_seconds m mod 86400) / 3600.
Definition minutes (m : t) : Z := (local_seconds m mod 3600) / 60.
Definition seconds (m : t) : Z := local_seconds m mod 60.

Definition field (width : nat) (v : Z) : string := pad_start width (dec v).

(** Modelled from the spec: [format] for the tokens of the fixed
    [YYYY-MM-DD HH:mm:ss] pattern (zero-padded year, month, day, 24-hour,
    minute, second); every other character of the pattern is copied.  The fuel
    is the pattern's length: each step consumes at least one character. *)
Fixpoint format_from (fuel : nat) (m : t) (pattern : string) : string :=
  match fuel with
  | O => ""
  | S fuel' =>
    match pattern with
    | String "Y" (String "Y" (String "Y" (String "Y" rest))) =>
        field 4 (year m) ++ format_from fuel' m rest
    | String "M" (String "M" rest) => field 2 (month m) ++ format_from fuel' m rest
    | String "D" (String "D" rest) => field 2 (date m) ++ format_from fuel' m rest
    | String "H" (String "H" rest) => field 2 (hours m) ++ format_from fuel' m rest
    | String "m" (String "m" rest) => field 2 (minutes m) ++ format_from fuel' m rest
    | String "s" (String "s" rest) => field 2 (seconds m) ++ format_from fuel' m rest
    | String c rest => String c (format_from fuel' m rest)
    | EmptyString => ""
    end
  end.

Definition format (m : t) (pattern : string) : string :=
  format_from (String.length pattern) m pattern.

End Moment.

(* ===================================================================== *)
(** * The script                                                          *)
(* ===================================================================== *)

Module Program.

(** ** Configuration (lines 19-23) *)

Record Config : Type := mkConfig { domain : string; query : string }.

Definition config : Config :=
  {| domain := "https://news.naver.com/section/100";
     query := "다음 Html 기사 목록을 바탕으로 중립적으로 핵심 내용을 요약해줘. 개인 의견이나 해석은 제외하고 원문 링크만 유지해줘." |}.

(** ** Collaborators *)

Record EmbeddingsParams : Type := mkEmbeddingsParams {
  openAIApiKey : string;
  batchSize : Z
}.

Record SplitterParams : Type := mkSplitterParams {
  chunkSize : Z;
  chunkOverlap : Z
}.

(** The object [chain.call] resolves to; [returnSourceDocuments] asks for the
    evidence next to the text. *)
Record ChainValues : Type := mkChainValues {
  text : string;
  sourceDocuments : list Document
}.

(** The vector store handle returned by [HNSWLib.fromDocuments]. *)
Record VectorStore : Type := mkVectorStore {
  stored : list Document;
  embedder : EmbeddingsParams
}.

Inductive HttpClient : Type := Axios | CheerioLoader.

(** Everything outside the script.  The clocks and the server answer by the
    number of the reading or request, so that two calls may see two values. *)
Record Env : Type := mkEnv {
  perf_now : nat -> Z;
  (** successive readings of [performance.now()], in microseconds *)
  wall_now : nat -> Z;
  (** successive readings of the wall clock by [moment()], in milliseconds *)
  env_OPENAI_API_KEY : option string;
  module_filename : string;
  (** [fileURLToPath(import.meta.url)] *)
  existing_directories : list string;
  existing_files : list string;
  (** paths that are there when the script starts and are not directories *)
  new_OpenAIEmbeddings : EmbeddingsParams -> Completion EmbeddingsParams;
  http_response : nat -> string -> Completion string;
  (** body served to the n-th page fetch of the run; a non-2xx status throws *)
  mkdir_failure : string -> option Error;
  write_failure : string -> option Error;
  cheerio_select : string -> string -> Completion (list Document);
  (** selector, body: the selected content as documents *)
  splitDocuments : SplitterParams -> list Document -> Completion (list Document);
  fromDocuments : list Document -> EmbeddingsParams -> Completion VectorStore;
  new_ChatOpenAI : string -> Completion string;
  chain_call : string -> VectorStore -> string -> Completion ChainValues
  (** model, store behind the retriever, query *)
}.

(** ** State: the two globals and what the run has done so far *)

Record LogLine : Type := mkLogLine {
  elapsed : Z;
  (** microseconds since [startTime] *)
  step : Z;
  logged : string
}.

Inductive Call : Type :=
| CallSplit (input : list Document) (output : Completion (list Document))
| CallFromDocuments (docs : list Document) (output : Completion VectorStore)
| CallChain (store : VectorStore) (question : string) (output : Completion ChainValues).

Record State : Type := mkState {
  currentStep : Z;
  console : list LogLine;
  perf_reads : nat;
  wall_reads : nat;
  requests : list (HttpClient * string);
  (** the page fetches the script issues itself, through axios and through the
      loader; what the embedding and chat collaborators send is theirs *)
  directories : list string;
  files : list (string * string);
  calls : list Call
}.

(** Module evaluation (lines 26-27): [currentStep = 1], and [startTime] takes
    the first reading of the performance clock. *)
Definition startTime (env : Env) : Z := perf_now env 0.

Definition initial (env : Env) : State :=
  {| currentStep := 1;
     console := [];
     perf_reads := 1;
     wall_reads := 0;
     requests := [];
     directories := existing_directories env;
     files := [];
     calls := [] |}.

(** ** The monad: environment, state, exceptions *)

Definition M (A : Type) : Type := Env -> State -> Completion A * State.

Definition ret {A : Type} (a : A) : M A := fun _ st => (Normal a, st).

Definition bind {A B : Type} (m : M A) (k : A -> M B) : M B :=
  fun env st =>
    match m env st with
    | (Normal a, st') => k a env st'
    | (Throw e, st') => (Throw e, st')
    end.

Definition lift {A : Type} (c : Env -> Completion A) : M A :=
  fun env st => (c env, st).

Definition when (b : bool) (m : M unit) : M unit := if b then m else ret tt.

Declare Scope js_scope.
Delimit Scope js_scope with js.
Notation "x <- m ;; k" := (bind m (fun x => k))
  (at level 100, m at next level, right associativity) : js_scope.
Notation "m ;; k" := (bind m (fun _ => k))
  (at level 100, right associativity) : js_scope.
Open Scope js_scope.

(** ** State updates *)

Definition with_console (st : State) (v : list LogLine) : State :=
  mkState (currentStep st) v (perf_reads st) (wall_reads st) (requests st)
          (directories st) (files st) (calls st).

Definition with_currentStep (st : State) (v : Z) : State :=
  mkState v (console st) (perf_reads st) (wall_reads st) (requests st)
          (directories st) (files st) (calls st).

Definition with_perf_reads (st : State) (v : nat) : State :=
  mkState (currentStep st) (console st) v (wall_reads st) (requests st)
          (directories st) (files st) (calls st).

Definition with_wall_reads (st : State) (v : nat) : State :=
  mkState (currentStep st) (console st) (perf_reads st) v (requests st)
          (directories st) (files st) (calls st).

Definition with_requests (st : State) (v : list (HttpClient * string)) : State :=
  mkState (currentStep st) (console st) (perf_reads st) (wall_reads st) v
          (directories st) (files st) (calls st).

Definition with_directories (st : State) (v : list string) : State :=
  mkState (currentStep st) (console st) (perf_reads st) (wall_reads st) (requests st)
          v (files st) (calls st).

Definition with_files (st : State) (v : list (string * string)) : State :=
  mkState (currentStep st) (console st) (perf_reads st) (wall_reads st) (requests st)
          (directories st) v (calls st).

Definition with_calls (st : State) (v : list Call) : State :=
  mkState (currentStep st) (console st) (perf_reads st) (wall_reads st) (requests st)
          (directories st) (files st) v.

(** ** Primitive effects *)

Definition performance_now : M Z := fun env st =>
  (Normal (perf_now env (perf_reads st)), with_perf_reads st (S (perf_reads st))).

Definition moment_now : M Z := fun env st =>
  (Normal (wall_now env (wall_reads st)), with_wall_reads st (S (wall_reads st))).

Definition console_log (line : LogLine) : M unit := fun _ st =>
  (Normal tt, with_console st (console st ++ [line])).

(** A GET of [url] by one of the script's two page fetches: the request is
    made, then the server's answer to this request (numbered over the page
    fetches of the run) completes it. *)
Definition http_get (client : HttpClient) (url : string) : M string := fun env st =>
  (http_response env (List.length (requests st)) url,
   with_requests st (requests st ++ [(client, url)])).

Definition axios_get (url : string) : M string := http_get Axios url.

(** [new CheerioWebBaseLoader(url, { selector }).load()]: the loader is handed
    the URL only (line 77), so [load] requests the page itself and selects
    from the body it receives. *)
Definition loader_load (url selector : string) : M (list Document) :=
  body <- http_get CheerioLoader url ;;
  lift (fun env => cheerio_select env selector body).

Definition mem_string (p : string) (l : list string) : bool :=
  existsb (String.eqb p) l.

(** [existsSync] is true of whatever is at the path: a directory, a file the
    run has written, or a file that was there before the run. *)
Definition fs_existsSync (p : string) : M bool := fun env st =>
  (Normal (mem_string p (directories st) || mem_string p (map fst (files st))
           || mem_string p (existing_files env)), st).

Definition fs_mkdirSync (p : string) : M unit := fun env st =>
  if mem_string p (directories st) || mem_string p (map fst (files st))
     || mem_string p (existing_files env)
  then (Throw (mkError "Error" ("EEXIST: file already exists, mkdir " ++ p)), st)
  else match mkdir_failure env p with
       | Some e => (Throw e, st)
       | None => (Normal tt, with_directories st (directories st ++ [p]))
       end.

(** [files] lists the writes in order: the file system holds, for each path,
    the data of its latest entry. *)
Definition fs_writeFileSync (p data : string) : M unit := fun env st =>
  match write_failure env p with
  | Some e => (Throw e, st)
  | None => (Normal tt, with_files st (files st ++ [(p, data)]))
  end.

Definition read_file (st : State) (p : string) : option string :=
  match filter (fun f => String.eqb (fst f) p) (rev (files st)) with
  | [] => None
  | f :: _ => Some (snd f)
  end.

Definition splitter_splitDocuments (params : SplitterParams) (docs : list Document)
  : M (list Document) := fun env st =>
  let out := splitDocuments env params docs in
  (out, with_calls st (calls st ++ [CallSplit docs out])).

Definition HNSWLib_fromDocuments (docs : list Document) (embeddings : EmbeddingsParams)
  : M VectorStore := fun env st =>
  let out := fromDocuments env docs embeddings in
  (out, with_calls st (calls st ++ [CallFromDocuments docs out])).

Definition chain_call_query (model : string) (store : VectorStore) (question : string)
  : M ChainValues := fun env st =>
  let out := chain_call env model store question in
  (out, with_calls st (calls st ++ [CallChain store question out])).

(** ** [path] on POSIX paths *)

Fixpoint last_index_of (c : ascii) (s : string) (pos : nat) : option nat :=
  match s with
  | EmptyString => None
  | String a rest =>
    match last_index_of c rest (S pos) with
    | Some i => Some i
    | None => if Ascii.eqb a c then Some pos else None
    end
  end.

Definition path_dirname (p : string) : string :=
  match last_index_of "/" p 0 with
  | None => "."
  | Some O => "/"
  | Some i => substring 0 i p
  end.

(** [path.resolve] of a path that is already absolute and normalised. *)
Definition path_resolve (p : string) : string := p.

Definition path_join (dir file : string) : string :=
  if String.eqb dir "/" then "/" ++ file else dir ++ "/" ++ file.

(** ** [logTimeWriteOutStep] (lines 30-35) *)

Definition logTimeWriteOutStep (message : string) : M unit :=
  now <- performance_now ;;
  fun env st =>
    let logMessage := mkLogLine (now - startTime env) (currentStep st) message in
    (console_log logMessage ;;
     fun _ st' => (Normal tt, with_currentStep st' (currentStep st' + 1))) env st.

(** The state one call of [logTimeWriteOutStep] leaves behind. *)
Definition after_log (env : Env) (st : State) (message : string) : State :=
  with_currentStep
    (with_console (with_perf_reads st (S (perf_reads st)))
       (console st ++
        [mkLogLine (perf_now env (perf_reads st) - startTime env) (currentStep st) message]))
    (currentStep st + 1).

(** [console.log] prints the line as [[s.cc s] Step n: message], where
    [toFixed(2)] writes the elapsed seconds with two decimals.  The text of
    the number is left to the runtime, which rounds the double it holds;
    [centiseconds] is the number of hundredths nearest to an elapsed time
    given in microseconds. *)
Definition centiseconds (us : Z) : Z := (us + 5000) / 10000.

(** ** [getCurrentTime] (lines 38-41) *)

Definition getCurrentTime : M string :=
  now <- moment_now ;;
  let m := Moment.tz now "Asia/Seoul" in
  ret (Moment.format m "YYYY-MM-DD HH:mm:ss").

(** ** [main] (lines 43-117) *)

Definition splitter_params : SplitterParams :=
  {| chunkSize := 2000; chunkOverlap := 100 |}.

Definition main : M unit :=
  logTimeWriteOutStep "main 함수 시작" ;;
  apiKey <- lift (fun env => Normal (env_OPENAI_API_KEY env)) ;;
  embeddings <- lift (fun env =>
     new_OpenAIEmbeddings env {| openAIApiKey := or_empty apiKey; batchSize := 512 |}) ;;
  logTimeWriteOutStep "OpenAI Embeddings 선언 및 할당 완료" ;;
  response_data <- axios_get (domain config) ;;
  logTimeWriteOutStep "html 파일 가져오기 완료" ;;
  filename <- lift (fun env => Normal (module_filename env)) ;;
  let dirname := path_resolve filename in
  let projectBaseDir := path_dirname dirname in
  let cacheDir := path_join projectBaseDir "cache" in
  let recordDir := path_join projectBaseDir "record" in
  cache_exists <- fs_existsSync cacheDir ;;
  when (negb cache_exists) (fs_mkdirSync cacheDir) ;;
  record_exists <- fs_existsSync recordDir ;;
  when (negb record_exists) (fs_mkdirSync recordDir) ;;
  logTimeWriteOutStep "파일 생성 완료" ;;
  stamp <- getCurrentTime ;;
  let filePath := path_join cacheDir (stamp ++ "-response.html") in
  fs_writeFileSync filePath response_data ;;
  logTimeWriteOutStep "response.html 파일로 저장 완료" ;;
  loadedData <- loader_load (domain config) "li" ;;
  splitDocs <- splitter_splitDocuments splitter_params loadedData ;;
  logTimeWriteOutStep "html 파일 로드 완료" ;;
  let docs := map (fun item => mkDocument (pageContent item) (metadata item)) splitDocs in
  logTimeWriteOutStep "Document 객체로 변환 완료" ;;
  vectorStore <- HNSWLib_fromDocuments docs embeddings ;;
  logTimeWriteOutStep "Vector store 생성 완료" ;;
  model <- lift (fun env => new_ChatOpenAI env "gpt-3.5-turbo") ;;
  logTimeWriteOutStep "QA chain 준비 완료" ;;
  resp <- chain_call_query model vectorStore (query config) ;;
  logTimeWriteOutStep ("QA 응답:" ++ newline ++ " " ++ text resp) ;;
  stamp2 <- getCurrentTime ;;
  let filePath2 := path_join recordDir (stamp2 ++ "-record.txt") in
  fs_writeFileSync filePath2 (text resp) ;;
  logTimeWriteOutStep "요약 결과 저장 완료" ;;
  logTimeWriteOutStep "최종 실행 완료".

(** ** The process (lines 119-120)

    [main()] is called at top level and its promise is dropped: the script
    attaches no handler and never sets an exit code itself. *)

Inductive PipelineState : Type :=
| Done
| Failed (reason : Error).

Record Process : Type := mkProcess {
  pipeline : PipelineState;
  final : State
}.

(** Where the run ends: [Done] when the promise of [main()] is fulfilled,
    [Failed] with the reason when it is rejected.  What the runtime then does
    with the process (its exit code, what it prints on the error stream) is
    the runtime's business and is not modelled. *)
Definition settle (c : Completion unit) (st : State) : Process :=
  match c with
  | Normal _ => {| pipeline := Done; final := st |}
  | Throw e => {| pipeline := Failed e; final := st |}
  end.

Definition run (env : Env) : Process :=
  let r := main env (initial env) in settle (fst r) (snd r).

(** ** Reasoning about a run: the postcondition of a computation *)

Definition wp {A : Type} (m : M A) (env : Env) (st : State)
  (Q : Completion A -> State -> Prop) : Prop :=
  Q (fst (m env st)) (snd (m env st)).

Close Scope js_scope.

End Program.

(* ===================================================================== *)
(** * VectorIndex                                                         *)
(* ===================================================================== *)

Module VectorIndex.

Local Open Scope Q_scope.

Definition Vector : Type := list Q.

(** An EmbeddedChunk: a chunk paired with its vector. *)
Record EmbeddedChunk : Type := mkEmbedded { chunk : string; vector : Vector }.

(** Entries in insertion order. *)
Definition Index : Type := list EmbeddedChunk.

(** Modelled from the spec: [build] is one-shot and fails with
    [EmptyInputError] on an empty input sequence.  The script itself hands
    the documents to [HNSWLib.fromDocuments], whose code is not part of the
    repository. *)
Definition build (embeddedChunks : list EmbeddedChunk) : Completion Index :=
  match embeddedChunks with
  | [] => Throw (mkError "EmptyInputError" "no chunks to index")
  | _ :: _ => Normal embeddedChunks
  end.

Fixpoint dot (a b : Vector) : Q :=
  match a, b with
  | x :: a', y :: b' => x * y + dot a' b'
  | _, _ => 0
  end.

Definition norm2 (a : Vector) : Q := dot a a.

Definition signed_square (x : Q) : Q :=
  if Qle_bool 0 x then x * x else - (x * x).

(** Modelled from the spec: the similarity metric is the cosine of the angle
    between [q] and [a], [dot q a / sqrt (norm2 q * norm2 a)], irrational in
    general.  The ranking compares its signed square, which is rational and
    orders the entries the same way. *)
Definition rank_key (q a : Vector) : Q :=
  signed_square (dot q a) / (norm2 q * norm2 a).

(** The cosine itself, over the reals. *)
Definition cosine (q a : Vector) : R :=
  (Q2R (dot q a) / sqrt (Q2R (norm2 q * norm2 a)))%R.

(** The signed square of a real: [t * |t|]. *)
Definition ssq (t : R) : R := (t * Rabs t)%R.

(** An entry together with its place in the index. *)
Record Hit : Type := mkHit { position : nat; entry : EmbeddedChunk }.

(** [x] ranks before [y]: it is strictly more similar to the query, or as
    similar and indexed earlier. *)
Definition ranks_before (q : Vector) (x y : Hit) : Prop :=
  (cosine q (vector (entry y)) < cosine q (vector (entry x)))%R
  \/ (cosine q (vector (entry x)) = cosine q (vector (entry y))
      /\ (position x < position y)%nat).

Fixpoint enumerate_from (n : nat) (idx : Index) : list Hit :=
  match idx with
  | [] => []
  | e :: rest => mkHit n e :: enumerate_from (S n) rest
  end.

(** [insert q h ranked]: [h] was indexed before every hit of [ranked]; it goes
    in front of the first hit that is not strictly more similar to [q]. *)
Fixpoint insert (q : Vector) (h : Hit) (ranked : list Hit) : list Hit :=
  match ranked with
  | [] => [h]
  | g :: rest =>
    if Qle_bool (rank_key q (vector (entry g))) (rank_key q (vector (entry h)))
    then h :: g :: rest
    else g :: insert q h rest
  end.

Fixpoint rank (q : Vector) (hits : list Hit) : list Hit :=
  match hits with
  | [] => []
  | h :: rest => insert q h (rank q rest)
  end.

(** Modelled from the spec: [Index.query] scores every indexed vector against
    the query (brute-force exact search), ranks by descending cosine
    similarity with ties kept in insertion order, and returns the first [k]. *)
Definition query (idx : Index) (q : Vector) (k : nat) : list Hit :=
  firstn k (rank q (enumerate_from 0 idx)).

End VectorIndex.

(* ===================================================================== *)
(** * TextChunker                                                         *)
(* ===================================================================== *)

Module TextChunker.

(** The preferred boundaries, in priority order; the raw character cut is the
    fallback when none is found. *)
Inductive Boundary : Type := ParagraphBreak | SentenceBreak | WordBreak.

Record Chunk (char : Type) : Type := mkChunk {
  start : Z;
  stop : Z;
  content : list char
}.

Arguments mkChunk {char} start stop content.
Arguments start {char} c.
Arguments stop {char} c.
Arguments content {char} c.

Inductive Outcome (char : Type) : Type :=
| Chunks (chunks : list (Chunk char))
| ConfigError
| OutOfFuel.

Arguments Chunks {char} chunks.
Arguments ConfigError {char}.
Arguments OutOfFuel {char}.

Section Split.

Context {char : Type}.

(** What counts as a break of each class at an offset of the text, and how
    long the trailing window is, the spec leaves open: both are parameters. *)
Variable is_break : Boundary -> list char -> Z -> bool.
Variable window : Z.

Definition slice (text : list char) (s e : Z) : list char :=
  firstn (Z.to_nat (e - s)) (skipn (Z.to_nat s) text).

(** The last offset in [(lo, lo + n]] that is a break of class [b]. *)
Fixpoint last_break (b : Boundary) (text : list char) (lo : Z) (n : nat) : option Z :=
  match n with
  | O => None
  | S n' =>
    if is_break b text (lo + Z.of_nat n) then Some (lo + Z.of_nat n)
    else last_break b text lo n'
  end.

(** Modelled from the spec: where the run that starts at [s] and may reach [e]
    is cut.  The preferred boundaries are searched in priority order within
    the trailing window: the last paragraph break, else the last sentence
    break, else the last word break, else the raw cut at [e] itself. *)
Definition cut (text : list char) (s e : Z) : Z :=
  let lo := Z.max s (e - window) in
  let n := Z.to_nat (e - lo) in
  match last_break ParagraphBreak text lo n with
  | Some p => p
  | None =>
    match last_break SentenceBreak text lo n with
    | Some p => p
    | None =>
      match last_break WordBreak text lo n with
      | Some p => p
      | None => e
      end
    end
  end.

(** Modelled from the spec: the left-to-right scan of [TextChunker.split].
    A chunk starts at [s]; when the rest of the text fits in [maxSize] it is
    the last chunk, otherwise the chunk is cut by [cut] and the next one
    starts [maxSize - overlap] characters after [s]. *)
Fixpoint scan (fuel : nat) (text : list char) (maxSize overlap s : Z)
  : option (list (Chunk char)) :=
  match fuel with
  | O => None
  | S fuel' =>
    let len := Z.of_nat (List.length text) in
    if len <=? s + maxSize then Some [mkChunk s len (slice text s len)]
    else
      let e := cut text s (s + maxSize) in
      match scan fuel' text maxSize overlap (s + (maxSize - overlap)) with
      | Some rest => Some (mkChunk s e (slice text s e) :: rest)
      | None => None
      end
  end.

(** Modelled from the spec: [split] fails with [ConfigError] when
    [maxSize <= 0] or [overlap >= maxSize]; empty input yields no chunk.  The
    script itself calls langchain's [RecursiveCharacterTextSplitter], whose
    code is not part of the repository. *)
Definition split (text : list char) (maxSize overlap : Z) : Outcome char :=
  if (maxSize <=? 0) || (maxSize <=? overlap) then ConfigError
  else
    match text with
    | [] => Chunks []
    | _ :: _ =>
      match scan (List.length text) text maxSize overlap 0 with
      | Some chunks => Chunks chunks
      | None => OutOfFuel
      end
    end.

End Split.

(** Where the first chunk of an outcome ends. *)
Definition first_stop {char : Type} (o : Outcome char) : option Z :=
  match o with
  | Chunks (c :: _) => Some (stop c)
  | _ => None
  end.

(** A chunk is a non-empty slice of the text, no longer than [maxSize]. *)
Definition well_cut {char : Type} (text : list char) (maxSize : Z) (c : Chunk char)
  : Prop :=
  0 <= start c < stop c
  /\ stop c <= Z.of_nat (List.length text)
  /\ content c = slice text (start c) (stop c)
  /\ Z.of_nat (List.length (content c)) = stop c - start c
  /\ Z.of_nat (List.length (content c)) <= maxSize.

End TextChunker.

(* ===================================================================== *)
(** * Vocabulary of the properties                                        *)
(* ===================================================================== *)

Module Properties.

Import Program.

(** [performance.now()] never runs backwards. *)
Definition monotone_clock (env : Env) : Prop :=
  forall i j : nat, (i <= j)%nat -> perf_now env i <= perf_now env j.

(** The wall clock stays between the start of 1989 (UTC) and the end of year
    9999 in Seoul: the range in which Seoul is at UTC+9 throughout and [YYYY]
    is four digits. *)
Definition wall_clock_in_range (env : Env) : Prop :=
  forall i : nat,
    599616000000 <= wall_now env i /\ wall_now env i / 1000 < 253402268400.

Definition is_digit (c : ascii) : bool :=
  (48 <=? nat_of_ascii c)%nat && (nat_of_ascii c <=? 57)%nat.

Definition digit_value (c : ascii) : Z := Z.of_nat (nat_of_ascii c) - 48.

(** The shape [dddd-dd-dd dd:dd:dd]. *)
Definition is_timestamp (s : string) : bool :=
  match list_ascii_of_string s with
  | [y1; y2; y3; y4; h1; mo1; mo2; h2; d1; d2; sp; hh1; hh2; c1; mi1; mi2; c2; s1; s2] =>
    forallb is_digit [y1; y2; y3; y4; mo1; mo2; d1; d2; hh1; hh2; mi1; mi2; s1; s2]
    && Ascii.eqb h1 "-" && Ascii.eqb h2 "-" && Ascii.eqb sp " "
    && Ascii.eqb c1 ":" && Ascii.eqb c2 ":"
  | _ => false
  end.

(** Reading a timestamp back: year, month, day, hour, minute, second. *)
Definition parse_timestamp (s : string) : option (Z * Z * Z * Z * Z * Z) :=
  if is_timestamp s then
    match list_ascii_of_string s with
    | [y1; y2; y3; y4; _; mo1; mo2; _; d1; d2; _; hh1; hh2; _; mi1; mi2; _; s1; s2] =>
      let two a b := 10 * digit_value a + digit_value b in
      Some (100 * two y1 y2 + two y3 y4, two mo1 mo2, two d1 d2,
            two hh1 hh2, two mi1 mi2, two s1 s2)
    | _ => None
    end
  else None.


Definition index_build_attempted (st : State) : Prop :=
  exists docs out, In (CallFromDocuments docs out) (calls st).


(** The directories the script writes to. *)
Definition projectBaseDir (env : Env) : string :=
  path_dirname (path_resolve (module_filename env)).

Definition cacheDir (env : Env) : string := path_join (projectBaseDir env) "cache".
Definition recordDir (env : Env) : string := path_join (projectBaseDir env) "record".

(** The key [getCurrentTime] produces from the n-th reading of the wall clock. *)
Definition stamp_at (env : Env) (n : nat) : string :=
  Moment.format (Moment.tz (wall_now env n) "Asia/Seoul") "YYYY-MM-DD HH:mm:ss".

(** Year, month, day, hour, minute and second in Seoul of that reading. *)
Definition seoul_fields (env : Env) (n : nat) : Z * Z * Z * Z * Z * Z :=
  let m := Moment.tz (wall_now env n) "Asia/Seoul" in
  (Moment.year m, Moment.month m, Moment.date m,
   Moment.hours m, Moment.minutes m, Moment.seconds m).

Definition cache_key (env : Env) (n : nat) : string :=
  path_join (cacheDir env) (stamp_at env n ++ "-response.html").

Definition record_key (env : Env) (n : nat) : string :=
  path_join (recordDir env) (stamp_at env n ++ "-record.txt").

(** [new Document({ pageContent, metadata })] over the split documents (lines 90-92). *)
Definition as_documents (splitDocs : list Document) : list Document :=
  map (fun item => mkDocument (pageContent item) (metadata item)) splitDocs.

(** What a run has written when it ends: nothing, the fetched page, or the
    fetched page and then the answer. *)
Inductive Persisted (env : Env) : list (string * string) -> Prop :=
| NothingYet : Persisted env []
| CacheOnly raw :
    http_response env 0 (domain config) = Normal raw ->
    Persisted env [(cache_key env 0, raw)]
| CacheAndRecord raw model store answer :
    http_response env 0 (domain config) = Normal raw ->
    chain_call env model store (query config) = Normal answer ->
    Persisted env [(cache_key env 0, raw); (record_key env 1, text answer)].

Definition two_digits (v : Z) : string :=
  String (digit (v / 10)) (String (digit (v mod 10)) "").

Definition four_digits (v : Z) : string :=
  String (digit (v / 1000)) (String (digit (v / 100 mod 10))
    (String (digit (v / 10 mod 10)) (String (digit (v mod 10)) ""))).

(** What the date arithmetic must yield for a day of a 400-year era: a year of
    the era, a month, a day of the month, and no year overflow before the
    era's last sixty days. *)
Definition era_day_ok (doe : Z) : bool :=
  let yoe := (doe - doe / 1460 + doe / 36524 - doe / 146096) / 365 in
  let doy := doe - (365 * yoe + yoe / 4 - yoe / 100) in
  let mp := (5 * doy + 2) / 153 in
  let d := doy - (153 * mp + 2) / 5 + 1 in
  let m := if mp <? 10 then mp + 3 else mp - 9 in
  (0 <=? yoe) && (yoe <=? 399) && (1 <=? m) && (m <=? 12) && (1 <=? d) && (d <=? 31)
  && ((146037 <=? doe) || (yoe + (if m <=? 2 then 1 else 0) <=? 399)).

(** [P] holds at the [n] integers from [lo] on. *)
Fixpoint all_from (n : nat) (lo : Z) (P : Z -> bool) : bool :=
  match n with
  | O => true
  | S k => P lo && all_from k (lo + 1) P
  end.

End Properties.

(* ===================================================================== *)
(** * Sample environments                                                 *)
(* ===================================================================== *)

Module Samples.

Import Program.

(** Every collaborator succeeds; the page changes between the two requests. *)
Definition env_ok : Env :=
  {| perf_now := fun n => Z.of_nat n * 1234567;
     wall_now := fun n => 1700000000000 + Z.of_nat (Nat.min n 10) * 60000;
     env_OPENAI_API_KEY := Some "sk-test";
     module_filename := "/app/src/index.ts";
     existing_directories := [];
     existing_files := [];
     new_OpenAIEmbeddings := fun p => Normal p;
     http_response := fun n _ =>
       Normal (if Nat.eqb n 0 then "<ul><li>first</li></ul>" else "<ul><li>second</li></ul>");
     mkdir_failure := fun _ => None;
     write_failure := fun _ => None;
     cheerio_select := fun _ body =>
       Normal [mkDocument body [("source", "https://news.naver.com/section/100")]];
     splitDocuments := fun _ docs => Normal docs;
     fromDocuments := fun docs emb => Normal (mkVectorStore docs emb);
     new_ChatOpenAI := fun m => Normal m;
     chain_call := fun _ _ _ => Normal (mkChainValues "summary" []) |}.

(** The selector matches nothing and the splitter returns no chunk; the store
    accepts the empty list and the question then fails inside the chain. *)
Definition env_empty : Env :=
  {| perf_now := fun n => Z.of_nat n * 1000;
     wall_now := fun n => 1700000000000 + Z.of_nat (Nat.min n 10) * 1000;
     env_OPENAI_API_KEY := Some "sk-test";
     module_filename := "/app/src/index.ts";
     existing_directories := ["/app/src/cache"; "/app/src/record"];
     existing_files := [];
     new_OpenAIEmbeddings := fun p => Normal p;
     http_response := fun _ _ => Normal "<html></html>";
     mkdir_failure := fun _ => None;
     write_failure := fun _ => None;
     cheerio_select := fun _ _ => Normal [];
     splitDocuments := fun _ _ => Normal [];
     fromDocuments := fun docs emb => Normal (mkVectorStore docs emb);
     new_ChatOpenAI := fun m => Normal m;
     chain_call := fun _ _ _ => Throw (mkError "Error" "nothing to search") |}.

(** As [env_ok], but a regular file sits at the path of the cache directory,
    so nothing can be written below it. *)
Definition env_cache_is_file : Env :=
  {| perf_now := perf_now env_ok;
     wall_now := wall_now env_ok;
     env_OPENAI_API_KEY := env_OPENAI_API_KEY env_ok;
     module_filename := module_filename env_ok;
     existing_directories := [];
     existing_files := ["/app/src/cache"];
     new_OpenAIEmbeddings := new_OpenAIEmbeddings env_ok;
     http_response := http_response env_ok;
     mkdir_failure := mkdir_failure env_ok;
     write_failure := fun p =>
       if String.prefix "/app/src/cache/" p
       then Some (mkError "Error" ("ENOTDIR: not a directory, open " ++ p))
       else None;
     cheerio_select := cheerio_select env_ok;
     splitDocuments := splitDocuments env_ok;
     fromDocuments := fromDocuments env_ok;
     new_ChatOpenAI := new_ChatOpenAI env_ok;
     chain_call := chain_call env_ok |}.

(** Six embedded chunks in the plane; the first and third point the same way. *)
Definition sample_index : list VectorIndex.EmbeddedChunk :=
  [VectorIndex.mkEmbedded "a" [1; 0]%Q; VectorIndex.mkEmbedded "b" [0; 1]%Q;
   VectorIndex.mkEmbedded "c" [2; 0]%Q; VectorIndex.mkEmbedded "d" [1; 1]%Q;
   VectorIndex.mkEmbedded "e" [-1; 0]%Q; VectorIndex.mkEmbedded "z" [0; 0]%Q].

(** A boundary policy for examples: a word break is the offset just after a
    space; paragraph and sentence breaks are not recognised. *)
Definition word_break_at_space (b : TextChunker.Boundary) (text : list ascii) (p : Z)
  : bool :=
  match b with
  | TextChunker.WordBreak =>
    match nth_error text (Z.to_nat (p - 1)) with
    | Some c => Ascii.eqb c " "
    | None => false
    end
  | _ => false
  end.

(** The policy closest to the splitter the script calls, which keeps a
    separator at the head of the piece that follows it: a word break is the
    offset of a space; paragraph and sentence breaks are not recognised. *)
Definition word_break_before_space (b : TextChunker.Boundary) (text : list ascii) (p : Z)
  : bool :=
  match b with
  | TextChunker.WordBreak =>
    match nth_error text (Z.to_nat p) with
    | Some c => (0 <=? p) && Ascii.eqb c " "
    | None => false
    end
  | _ => false
  end.

(** 4500 characters with a single space, at offset 1989. *)
Definition text_4500 : list ascii :=
  repeat "a"%char 1989 ++ [" "%char] ++ repeat "a"%char 2510.

(** 4500 characters with no white space at all. *)
Definition text_unbroken : list ascii := repeat "a"%char 4500.

End Samples.


(* ===================================================================== *)
(** * Vocabulary of the further properties                                *)
(* ===================================================================== *)

Module Coverage.

Import Program Properties.

(** The messages of the twelve log calls of [main], in order; the tenth
    carries the text of the answer (line 108). *)
Definition script_messages (answer : string) : list string :=
  ["main 함수 시작";
   "OpenAI Embeddings 선언 및 할당 완료";
   "html 파일 가져오기 완료";
   "파일 생성 완료";
   "response.html 파일로 저장 완료";
   "html 파일 로드 완료";
   "Document 객체로 변환 완료";
   "Vector store 생성 완료";
   "QA chain 준비 완료";
   ("QA 응답:" ++ newline ++ " " ++ answer)%string;
   "요약 결과 저장 완료";
   "최종 실행 완료"].

(** The options [main] constructs the embeddings client with (lines 48-51). *)
Definition embeddings_params (env : Env) : EmbeddingsParams :=
  {| openAIApiKey := or_empty (env_OPENAI_API_KEY env); batchSize := 512 |}.

(** The collaborator whose rejection ended the run, with the number of lines
    logged by then. *)
Inductive FailedAt (env : Env) (e : Error) : nat -> Prop :=
| AtEmbeddings :
    new_OpenAIEmbeddings env (embeddings_params env) = Throw e -> FailedAt env e 1
| AtFetch :
    http_response env 0 (domain config) = Throw e -> FailedAt env e 2
| AtMkdirCache :
    ~ In (cacheDir env) (existing_directories env) ->
    mkdir_failure env (cacheDir env) = Some e -> FailedAt env e 3
| AtMkdirRecord :
    ~ In (recordDir env) (existing_directories env) ->
    mkdir_failure env (recordDir env) = Some e -> FailedAt env e 3
| AtWriteCache :
    write_failure env (cache_key env 0) = Some e -> FailedAt env e 4
| AtLoaderFetch :
    http_response env 1 (domain config) = Throw e -> FailedAt env e 5
| AtSelect page :
    http_response env 1 (domain config) = Normal page ->
    cheerio_select env "li" page = Throw e -> FailedAt env e 5
| AtSplit docs :
    splitDocuments env splitter_params docs = Throw e -> FailedAt env e 5
| AtIndex docs emb :
    fromDocuments env docs emb = Throw e -> FailedAt env e 7
| AtChatModel :
    new_ChatOpenAI env "gpt-3.5-turbo" = Throw e -> FailedAt env e 8
| AtChain model store :
    chain_call env model store (query config) = Throw e -> FailedAt env e 9
| AtWriteRecord :
    write_failure env (record_key env 1) = Some e -> FailedAt env e 10.

(** Something is at path [p]: one of the directories [dirs], or a file that
    was there before the run. *)
Definition occupied (env : Env) (dirs : list string) (p : string) : Prop :=
  In p dirs \/ In p (existing_files env).

(** The directories once the run is over: [passed] tells whether the run got
    past the directory set-up of lines 63-69. *)
Inductive DirectoriesAfter (env : Env) : bool -> list string -> Prop :=
| BothExisted :
    occupied env (existing_directories env) (cacheDir env) ->
    occupied env (existing_directories env) (recordDir env) ->
    DirectoriesAfter env true (existing_directories env)
| CacheCreated :
    ~ occupied env (existing_directories env) (cacheDir env) ->
    occupied env (existing_directories env ++ [cacheDir env]) (recordDir env) ->
    DirectoriesAfter env true (existing_directories env ++ [cacheDir env])
| RecordCreated :
    occupied env (existing_directories env) (cacheDir env) ->
    ~ occupied env (existing_directories env) (recordDir env) ->
    DirectoriesAfter env true (existing_directories env ++ [recordDir env])
| BothCreated :
    ~ occupied env (existing_directories env) (cacheDir env) ->
    ~ occupied env (existing_directories env ++ [cacheDir env]) (recordDir env) ->
    DirectoriesAfter env true
      ((existing_directories env ++ [cacheDir env]) ++ [recordDir env])
| StoppedBefore :
    DirectoriesAfter env false (existing_directories env)
| StoppedAfterCache :
    ~ occupied env (existing_directories env) (cacheDir env) ->
    DirectoriesAfter env false (existing_directories env ++ [cacheDir env]).

(** Day number, counted from 1970-01-01, of a proleptic Gregorian date. *)
Definition days_from_civil (y m d : Z) : Z :=
  let y' := if m <=? 2 then y - 1 else y in
  let era := y' / 400 in
  let yoe := y' - era * 400 in
  let mp := (m + 9) mod 12 in
  let doy := (153 * mp + 2) / 5 + d - 1 in
  let doe := yoe * 365 + yoe / 4 - yoe / 100 + doy in
  era * 146097 + doe - 719468.

(** Local seconds since the epoch of a date and time of day. *)
Definition seconds_of_fields (f : Z * Z * Z * Z * Z * Z) : Z :=
  let '(y, m, d, h, mi, s) := f in
  86400 * days_from_civil y m d + 3600 * h + 60 * mi + s.

(** For a day of a 400-year era: the month index can be read back from the
    month. *)
Definition era_day_inverts (doe : Z) : bool :=
  let yoe := (doe - doe / 1460 + doe / 36524 - doe / 146096) / 365 in
  let doy := doe - (365 * yoe + yoe / 4 - yoe / 100) in
  let mp := (5 * doy + 2) / 153 in
  let m := if mp <? 10 then mp + 3 else mp - 9 in
  (0 <=? yoe) && (yoe <=? 399) && ((m + 9) mod 12 =? mp).

(** The last character of a string. *)
Definition last_char (s : string) : option ascii :=
  match rev (list_ascii_of_string s) with
  | [] => None
  | c :: _ => Some c
  end.

End Coverage.

(* ===================================================================== *)
(* ===================================================================== *)
(** * Theorems                                                            *)
(* ===================================================================== *)
(* ===================================================================== *)

(* ===================================================================== *)
(** * Timestamps                                                          *)
(* ===================================================================== *)

Module MomentFacts.

Import Program Properties.

Lemma all_from_spec (P : Z -> bool) (n : nat) :
  forall lo, all_from n lo P = true -> forall z, lo <= z < lo + Z.of_nat n -> P z = true.
Proof.
  induction n as [| k IH]; intros lo Hall z Hz.
  - lia.
  - cbn [all_from] in Hall. apply andb_true_iff in Hall as [Hlo Hrest].
    destruct (Z.eq_dec z lo) as [-> | Hne]; [exact Hlo | ].
    apply (IH (lo + 1)); [exact Hrest | lia].
Qed.

Lemma all_below_Z (P : Z -> bool) (n : Z) :
  all_from (Z.to_nat n) 0 P = true -> forall z, 0 <= z < n -> P z = true.
Proof.
  intros Hall z Hz. apply (all_from_spec P (Z.to_nat n) 0 Hall). lia.
Qed.

Lemma field2_digits v : 0 <= v < 100 -> Moment.field 2 v = two_digits v.
Proof.
  intros Hv. apply String.eqb_eq.
  apply (all_below_Z (fun v => String.eqb (Moment.field 2 v) (two_digits v)) 100);
    [vm_compute; reflexivity | lia].
Qed.

Lemma field4_digits v : 0 <= v < 10000 -> Moment.field 4 v = four_digits v.
Proof.
  intros Hv. apply String.eqb_eq.
  apply (all_below_Z (fun v => String.eqb (Moment.field 4 v) (four_digits v)) 10000);
    [vm_compute; reflexivity | lia].
Qed.

Lemma digit_is_digit d : 0 <= d <= 9 -> is_digit (digit d) = true.
Proof.
  intros Hd.
  apply (all_below_Z (fun d => is_digit (digit d)) 10); [vm_compute; reflexivity | lia].
Qed.

Lemma digit_value_digit d : 0 <= d <= 9 -> digit_value (digit d) = d.
Proof.
  intros Hd. apply Z.eqb_eq.
  apply (all_below_Z (fun d => digit_value (digit d) =? d) 10);
    [vm_compute; reflexivity | lia].
Qed.

Lemma era_days_ok doe : 0 <= doe < 146097 -> era_day_ok doe = true.
Proof.
  intros H. apply (all_below_Z era_day_ok 146097); [vm_compute; reflexivity | lia].
Qed.

(** From the epoch to the last day of year 9999 the date has a four-digit
    year, a month from 1 to 12 and a day from 1 to 31. *)
Lemma civil_from_days_range days :
  0 <= days < 2932897 ->
  let '(y, m, d) := Moment.civil_from_days days in
  0 <= y <= 9999 /\ 1 <= m <= 12 /\ 1 <= d <= 31.
Proof.
  intros Hdays. unfold Moment.civil_from_days.
  set (z := days + 719468).
  set (era := z / 146097).
  set (doe := z - era * 146097).
  assert (Hdoe : 0 <= doe < 146097).
  { subst doe era. pose proof (Z.mod_pos_bound z 146097 ltac:(lia)) as Hm.
    rewrite Z.mod_eq in Hm by lia. lia. }
  assert (Hera : 4 <= era < 25) by (subst era z; split;
    [apply Z.div_le_lower_bound | apply Z.div_lt_upper_bound]; lia).
  assert (Hlast : era = 24 -> doe < 146037) by (subst doe z; lia).
  pose proof (era_days_ok doe Hdoe) as Hok. unfold era_day_ok in Hok.
  cbv zeta in *.
  set (yoe := (doe - doe / 1460 + doe / 36524 - doe / 146096) / 365) in *.
  set (doy := doe - (365 * yoe + yoe / 4 - yoe / 100)) in *.
  set (mp := (5 * doy + 2) / 153) in *.
  set (d := doy - (153 * mp + 2) / 5 + 1) in *.
  set (m := if mp <? 10 then mp + 3 else mp - 9) in *.
  repeat (apply andb_true_iff in Hok as [Hok ?]).
  match goal with H : (_ || _) = true |- _ => apply orb_true_iff in H as [Hlate | Hyear] end.
  - destruct (m <=? 2); lia.
  - destruct (m <=? 2); lia.
Qed.

Section Fields.

Variable ms : Z.
Hypothesis Hlo : 0 <= ms.
Hypothesis Hhi : ms / 1000 < 253402268400.

Let m := Moment.tz ms "Asia/Seoul".

Lemma seoul_offset : Moment.utc_offset_s m = 32400.
Proof. reflexivity. Qed.

Lemma local_seconds_range : 32400 <= Moment.local_seconds m < 253402300800.
Proof.
  unfold Moment.local_seconds. rewrite seoul_offset. cbn [Moment.instant_ms m Moment.tz].
  assert (0 <= ms / 1000) by (apply Z.div_pos; lia). lia.
Qed.

Lemma local_day_range : 0 <= Moment.local_seconds m / 86400 < 2932897.
Proof.
  pose proof local_seconds_range. split.
  - apply Z.div_pos; lia.
  - apply Z.div_lt_upper_bound; lia.
Qed.

Lemma field_ranges :
  0 <= Moment.year m <= 9999 /\ 1 <= Moment.month m <= 12 /\ 1 <= Moment.date m <= 31
  /\ 0 <= Moment.hours m <= 23 /\ 0 <= Moment.minutes m <= 59
  /\ 0 <= Moment.seconds m <= 59.
Proof.
  pose proof (civil_from_days_range _ local_day_range) as Hc.
  unfold Moment.year, Moment.month, Moment.date, Moment.hours, Moment.minutes, Moment.seconds.
  destruct (Moment.civil_from_days (Moment.local_seconds m / 86400)) as [[y mo] d].
  cbn [fst snd]. repeat split; try lia.
  all: try (apply Z.div_pos; [apply Z.mod_pos_bound | ]; lia).
  - apply Z.lt_succ_r, Z.div_lt_upper_bound; [lia | ].
    pose proof (Z.mod_pos_bound (Moment.local_seconds m) 86400). lia.
  - apply Z.lt_succ_r, Z.div_lt_upper_bound; [lia | ].
    pose proof (Z.mod_pos_bound (Moment.local_seconds m) 3600). lia.
  - apply Z.mod_pos_bound. lia.
  - pose proof (Z.mod_pos_bound (Moment.local_seconds m) 60). lia.
Qed.

Lemma format_fields :
  Moment.format m "YYYY-MM-DD HH:mm:ss"
  = (four_digits (Moment.year m) ++ "-" ++ two_digits (Moment.month m) ++ "-"
     ++ two_digits (Moment.date m) ++ " " ++ two_digits (Moment.hours m) ++ ":"
     ++ two_digits (Moment.minutes m) ++ ":" ++ two_digits (Moment.seconds m))%string.
Proof.
  pose proof field_ranges as (Hy & Hmo & Hd & Hh & Hmi & Hs).
  change (Moment.format m "YYYY-MM-DD HH:mm:ss")
    with (Moment.field 4 (Moment.year m) ++ "-" ++ Moment.field 2 (Moment.month m) ++ "-"
          ++ Moment.field 2 (Moment.date m) ++ " " ++ Moment.field 2 (Moment.hours m) ++ ":"
          ++ Moment.field 2 (Moment.minutes m) ++ ":"
          ++ Moment.field 2 (Moment.seconds m) ++ "")%string.
  rewrite field4_digits by lia. rewrite !field2_digits by lia.
  unfold four_digits, two_digits. cbn [String.append]. reflexivity.
Qed.

Lemma digits_of v : 0 <= v <= 99 -> 0 <= v / 10 <= 9 /\ 0 <= v mod 10 <= 9.
Proof.
  intros Hv. pose proof (Z.mod_pos_bound v 10). split; [ | lia].
  split; [apply Z.div_pos; lia | apply Z.lt_succ_r, Z.div_lt_upper_bound; lia].
Qed.

Lemma two_digits_value v :
  0 <= v <= 99 -> 10 * (v / 10) + v mod 10 = v.
Proof. intros Hv. pose proof (Z.div_mod v 10). lia. Qed.

(** The rendering has the fixed shape, and reading it back gives the civil
    fields of the instant in Seoul. *)
Lemma seoul_timestamp :
  is_timestamp (Moment.format m "YYYY-MM-DD HH:mm:ss") = true
  /\ parse_timestamp (Moment.format m "YYYY-MM-DD HH:mm:ss")
     = Some (Moment.year m, Moment.month m, Moment.date m,
             Moment.hours m, Moment.minutes m, Moment.seconds m).
Proof.
  pose proof field_ranges as (Hy & Hmo & Hd & Hh & Hmi & Hs).
  rewrite format_fields.
  assert (Hy1 : 0 <= Moment.year m / 100 <= 99).
  { split; [apply Z.div_pos; lia | apply Z.lt_succ_r, Z.div_lt_upper_bound; lia]. }
  assert (Hy2 : 0 <= Moment.year m mod 100 <= 99)
    by (pose proof (Z.mod_pos_bound (Moment.year m) 100); lia).
  assert (Hfour : four_digits (Moment.year m)
                  = (two_digits (Moment.year m / 100)
                     ++ two_digits (Moment.year m mod 100))%string).
  { unfold four_digits, two_digits. cbn [String.append].
    assert (E1 : Moment.year m / 1000 = Moment.year m / 100 / 10)
      by (Z.to_euclidean_division_equations; lia).
    assert (E2 : Moment.year m / 10 mod 10 = Moment.year m mod 100 / 10)
      by (Z.to_euclidean_division_equations; lia).
    assert (E3 : Moment.year m mod 10 = Moment.year m mod 100 mod 10)
      by (Z.to_euclidean_division_equations; lia).
    rewrite E1, E2, E3. reflexivity. }
  rewrite Hfour. unfold two_digits. cbn [String.append].
  pose proof (digits_of _ Hy1) as [? ?]. pose proof (digits_of _ Hy2) as [? ?].
  pose proof (digits_of (Moment.month m) ltac:(lia)) as [? ?].
  pose proof (digits_of (Moment.date m) ltac:(lia)) as [? ?].
  pose proof (digits_of (Moment.hours m) ltac:(lia)) as [? ?].
  pose proof (digits_of (Moment.minutes m) ltac:(lia)) as [? ?].
  pose proof (digits_of (Moment.seconds m) ltac:(lia)) as [? ?].
  assert (Hshape : forall s, s = true -> s = true) by auto.
  unfold parse_timestamp, is_timestamp.
  cbn [list_ascii_of_string forallb].
  rewrite !digit_is_digit by assumption.
  cbn [andb Ascii.eqb Bool.eqb].
  split; [reflexivity | ].
  rewrite !digit_value_digit by assumption.
  rewrite !two_digits_value by lia.
  pose proof (Z.div_mod (Moment.year m) 100 ltac:(lia)).
  repeat f_equal. lia.
Qed.

End Fields.

End MomentFacts.

(* ===================================================================== *)
(** * Symbolic execution of the script                                    *)
(* ===================================================================== *)

Module Exec.

Import Program.

Section Rules.

Context {A B : Type}.
Variables (env : Env) (st : State).

Lemma wp_bind (m : M A) (k : A -> M B) (Q : Completion B -> State -> Prop) :
  wp m env st (fun c st' =>
    match c with
    | Normal a => wp (k a) env st' Q
    | Throw e => Q (Throw e) st'
    end) ->
  wp (bind m k) env st Q.
Proof.
  unfold wp, bind. destruct (m env st) as [[a | e] st']; cbn; auto.
Qed.

Lemma wp_ret (a : A) (Q : Completion A -> State -> Prop) :
  Q (Normal a) st -> wp (ret a) env st Q.
Proof. exact (fun H => H). Qed.

Lemma wp_lift (f : Env -> Completion A) (Q : Completion A -> State -> Prop) :
  Q (f env) st -> wp (lift f) env st Q.
Proof. exact (fun H => H). Qed.

End Rules.

Section Primitives.

Variables (env : Env) (st : State).

Lemma wp_log message (Q : Completion unit -> State -> Prop) :
  Q (Normal tt) (after_log env st message) -> wp (logTimeWriteOutStep message) env st Q.
Proof. exact (fun H => H). Qed.

Lemma wp_when (b : bool) (m : M unit) (Q : Completion unit -> State -> Prop) :
  (b = true -> wp m env st Q) -> (b = false -> Q (Normal tt) st) -> wp (when b m) env st Q.
Proof. destruct b; intros Ht Hf; [apply Ht | apply Hf]; reflexivity. Qed.

Lemma wp_moment_now (Q : Completion Z -> State -> Prop) :
  Q (Normal (wall_now env (wall_reads st))) (with_wall_reads st (S (wall_reads st))) ->
  wp moment_now env st Q.
Proof. exact (fun H => H). Qed.

Lemma wp_getCurrentTime (Q : Completion string -> State -> Prop) :
  Q (Normal (Properties.stamp_at env (wall_reads st)))
    (with_wall_reads st (S (wall_reads st))) ->
  wp getCurrentTime env st Q.
Proof. exact (fun H => H). Qed.

Lemma wp_http_get client url (Q : Completion string -> State -> Prop) :
  Q (http_response env (List.length (requests st)) url)
    (with_requests st (requests st ++ [(client, url)])) ->
  wp (http_get client url) env st Q.
Proof. exact (fun H => H). Qed.

Lemma wp_existsSync p (Q : Completion bool -> State -> Prop) :
  Q (Normal (mem_string p (directories st) || mem_string p (map fst (files st))
             || mem_string p (existing_files env))) st ->
  wp (fs_existsSync p) env st Q.
Proof. exact (fun H => H). Qed.

Lemma wp_mkdirSync p (Q : Completion unit -> State -> Prop) :
  (forall e, Q (Throw e) st) ->
  Q (Normal tt) (with_directories st (directories st ++ [p])) ->
  wp (fs_mkdirSync p) env st Q.
Proof.
  intros Hthrow Hok. unfold wp, fs_mkdirSync.
  destruct (mem_string p (directories st) || mem_string p (map fst (files st))
            || mem_string p (existing_files env));
    [apply Hthrow | ].
  destruct (mkdir_failure env p); [apply Hthrow | exact Hok].
Qed.

Lemma wp_writeFileSync p data (Q : Completion unit -> State -> Prop) :
  (forall e, Q (Throw e) st) ->
  Q (Normal tt) (with_files st (files st ++ [(p, data)])) ->
  wp (fs_writeFileSync p data) env st Q.
Proof.
  intros Hthrow Hok. unfold wp, fs_writeFileSync.
  destruct (write_failure env p); [apply Hthrow | exact Hok].
Qed.

Lemma wp_splitDocuments params docs (Q : Completion (list Document) -> State -> Prop) :
  Q (splitDocuments env params docs)
    (with_calls st (calls st ++ [CallSplit docs (splitDocuments env params docs)])) ->
  wp (splitter_splitDocuments params docs) env st Q.
Proof. exact (fun H => H). Qed.

Lemma wp_fromDocuments docs emb (Q : Completion VectorStore -> State -> Prop) :
  Q (fromDocuments env docs emb)
    (with_calls st (calls st ++ [CallFromDocuments docs (fromDocuments env docs emb)])) ->
  wp (HNSWLib_fromDocuments docs emb) env st Q.
Proof. exact (fun H => H). Qed.

Lemma wp_chain_call model store question (Q : Completion ChainValues -> State -> Prop) :
  Q (chain_call env model store question)
    (with_calls st
       (calls st ++ [CallChain store question (chain_call env model store question)])) ->
  wp (chain_call_query model store question) env st Q.
Proof. exact (fun H => H). Qed.

End Primitives.

(** A property of the finished process is a postcondition of [main]. *)
Lemma run_wp env (P : Process -> Prop) :
  wp main env (initial env) (fun c st => P (settle c st)) -> P (run env).
Proof. exact (fun H => H). Qed.

Ltac wp_head :=
  lazymatch goal with
  | |- wp (bind _ _) _ _ _ => apply wp_bind
  | |- wp (logTimeWriteOutStep _) _ _ _ => apply wp_log
  | |- wp (ret _) _ _ _ => apply wp_ret
  | |- wp (lift _) _ _ _ => apply wp_lift
  | |- wp (when _ _) _ _ _ => apply wp_when; intros _
  | |- wp (loader_load _ _) _ _ _ => unfold loader_load
  | |- wp (axios_get _) _ _ _ => unfold axios_get
  | |- wp getCurrentTime _ _ _ => apply wp_getCurrentTime
  | |- wp moment_now _ _ _ => apply wp_moment_now
  | |- wp (http_get _ _) _ _ _ => apply wp_http_get
  | |- wp (fs_existsSync _) _ _ _ => apply wp_existsSync
  | |- wp (fs_mkdirSync _) _ _ _ => apply wp_mkdirSync; [intros ? | ]
  | |- wp (fs_writeFileSync _ _) _ _ _ => apply wp_writeFileSync; [intros ? | ]
  | |- wp (splitter_splitDocuments _ _) _ _ _ => apply wp_splitDocuments
  | |- wp (HNSWLib_fromDocuments _ _) _ _ _ => apply wp_fromDocuments
  | |- wp (chain_call_query _ _ _) _ _ _ => apply wp_chain_call
  end.

Ltac wp_oracle :=
  lazymatch goal with
  | |- match ?c with Normal _ => _ | Throw _ => _ end => destruct c eqn:?
  end.

Ltac wp_state :=
  cbv beta iota delta
      [after_log with_console with_currentStep with_perf_reads with_wall_reads
       with_requests with_directories with_files with_calls
       currentStep console perf_reads wall_reads requests directories files calls
       initial];
  cbn [app List.length].

Ltac wp_one := first [ progress (cbv beta iota zeta; wp_state) | wp_head | wp_oracle ].

(** Runs [main] from the initial state; leaves one goal per way the run can end. *)
Ltac run_main := apply run_wp; unfold main; repeat wp_one.

Ltac finished := cbn [settle pipeline final].

End Exec.

Module LogFacts.

Import Program Properties Samples Exec.

Lemma clock_steps env :
  monotone_clock env -> forall i, perf_now env i <= perf_now env (S i).
Proof. intros H i. apply H. lia. Qed.

Lemma centiseconds_monotone a b : a <= b -> centiseconds a <= centiseconds b.
Proof. intros H. unfold centiseconds. apply Z.div_le_mono; lia. Qed.

Ltac clock_facts env H :=
  pose proof (clock_steps env H 0%nat); pose proof (clock_steps env H 1%nat);
  pose proof (clock_steps env H 2%nat); pose proof (clock_steps env H 3%nat);
  pose proof (clock_steps env H 4%nat); pose proof (clock_steps env H 5%nat);
  pose proof (clock_steps env H 6%nat); pose proof (clock_steps env H 7%nat);
  pose proof (clock_steps env H 8%nat); pose proof (clock_steps env H 9%nat);
  pose proof (clock_steps env H 10%nat); pose proof (clock_steps env H 11%nat);
  pose proof (clock_steps env H 12%nat).

(** C10 (amended): every log line carries the value of the shared counter,
    which starts at 1 and grows by one per logged message, so the logged step
    numbers are 1, 2, ... in order; a run that reaches [Done] logs exactly the
    steps 1 to 12 (the script has twelve log calls); and with a clock that
    never runs backwards the elapsed times, raw and as printed, never
    decrease from one line to the next. *)
Theorem log_steps_follow_counter :
  forall env, monotone_clock env ->
    let p := run env in
    let lines := console (final p) in
    map step lines = map Z.of_nat (seq 1 (List.length lines))
    /\ currentStep (final p) = Z.of_nat (List.length lines) + 1
    /\ (pipeline p = Done -> map step lines = [1; 2; 3; 4; 5; 6; 7; 8; 9; 10; 11; 12])
    /\ Sorted Z.le (map elapsed lines)
    /\ Sorted Z.le (map (fun l => centiseconds (elapsed l)) lines).
Proof.
  intros env Hmono p lines. subst lines p.
  clock_facts env Hmono.
  run_main; finished.
  all: repeat split; try reflexivity; try discriminate.
  all: cbn [map elapsed]; unfold startTime;
    repeat (constructor; try apply centiseconds_monotone; try lia).
Qed.

Lemma env_ok_clock : monotone_clock env_ok.
Proof. intros i j Hij. cbn. nia. Qed.

Lemma log_steps_follow_counter_witness :
  monotone_clock env_ok
  /\ pipeline (run env_ok) = Done
  /\ map step (console (final (run env_ok))) = [1; 2; 3; 4; 5; 6; 7; 8; 9; 10; 11; 12].
Proof.
  split; [exact env_ok_clock | split; [vm_compute; reflexivity | ]].
  apply (log_steps_follow_counter env_ok env_ok_clock). vm_compute. reflexivity.
Defined.

(** C10 as stated fails: a successful run logs the steps 1 to 12, not 1 to 14. *)
Lemma log_steps_not_fourteen :
  pipeline (run env_ok) = Done
  /\ map step (console (final (run env_ok))) = [1; 2; 3; 4; 5; 6; 7; 8; 9; 10; 11; 12]
  /\ map step (console (final (run env_ok)))
     <> [1; 2; 3; 4; 5; 6; 7; 8; 9; 10; 11; 12; 13; 14].
Proof.
  repeat split; try (vm_compute; reflexivity).
  vm_compute. discriminate.
Qed.

End LogFacts.

Module EmptyInput.

Import Program Properties Samples Exec.






End EmptyInput.

Module Artifacts.

Import Program Properties Samples Exec.

Lemma stamp_well_formed env n :
  wall_clock_in_range env ->
  is_timestamp (stamp_at env n) = true
  /\ parse_timestamp (stamp_at env n) = Some (seoul_fields env n).
Proof.
  intros Hrange. destruct (Hrange n) as [Hlo Hhi].
  apply (MomentFacts.seoul_timestamp (wall_now env n)); [lia | exact Hhi].
Qed.

Lemma persisted_files env :
  Persisted env (files (final (run env)))
  /\ (pipeline (run env) = Done ->
      exists raw answer,
        files (final (run env))
        = [(cache_key env 0, raw); (record_key env 1, text answer)]).
Proof.
  run_main; finished.
  all: split.
  all: lazymatch goal with
       | |- Persisted _ [] => exact (NothingYet env)
       | |- Persisted _ [(_, ?raw)] => refine (CacheOnly env raw _); assumption
       | |- Persisted _ [(_, ?raw); (_, text ?answer)] =>
           refine (CacheAndRecord env raw _ _ answer _ _); eassumption
       | |- Failed _ = Done -> _ => intros H; discriminate H
       | |- Done = Done -> exists _ _, [(_, ?raw); (_, text ?answer)] = _ =>
           intros _; exists raw, answer; reflexivity
       end.
Qed.

(** C7: whatever the run has persisted, the raw page under the cache
    directory and the answer text under the record directory, is stored under
    a key made of a timestamp of the fixed shape [YYYY-MM-DD HH:mm:ss] followed
    by the artifact's suffix; the timestamp reads back as the date and time in
    Asia/Seoul (UTC+9) of the wall clock reading taken for it.  A run that
    reaches [Done] has persisted both artifacts. *)
Theorem artifacts_keyed_by_seoul_timestamp :
  forall env, wall_clock_in_range env ->
    let p := run env in
    (forall path data, In (path, data) (files (final p)) ->
       exists n,
         (path = cache_key env n \/ path = record_key env n)
         /\ is_timestamp (stamp_at env n) = true
         /\ parse_timestamp (stamp_at env n) = Some (seoul_fields env n)
         /\ Moment.utc_offset_s (Moment.tz (wall_now env n) "Asia/Seoul") = 9 * 3600)
    /\ (pipeline p = Done ->
          exists raw answer,
            files (final p)
            = [(cache_key env 0, raw); (record_key env 1, text answer)]).
Proof.
  intros env Hrange p. subst p.
  destruct (persisted_files env) as [Hfiles Hdone]. split; [ | exact Hdone].
  intros path data Hin.
  assert (Hkey : forall n, path = cache_key env n \/ path = record_key env n ->
            exists n,
              (path = cache_key env n \/ path = record_key env n)
              /\ is_timestamp (stamp_at env n) = true
              /\ parse_timestamp (stamp_at env n) = Some (seoul_fields env n)
              /\ Moment.utc_offset_s (Moment.tz (wall_now env n) "Asia/Seoul") = 9 * 3600).
  { intros n Hn. exists n. destruct (stamp_well_formed env n Hrange) as [Hs Hp].
    repeat split; assumption || reflexivity. }
  destruct Hfiles as [ | raw Hraw | raw model store answer Hraw Hanswer ].
  - destruct Hin.
  - destruct Hin as [Hin | []]. injection Hin as <- _. apply (Hkey 0%nat). left. reflexivity.
  - destruct Hin as [Hin | [Hin | []]]; injection Hin as <- _.
    + apply (Hkey 0%nat). left. reflexivity.
    + apply (Hkey 1%nat). right. reflexivity.
Qed.

Lemma env_ok_wall_clock : wall_clock_in_range env_ok.
Proof.
  intros i. cbn [wall_now env_ok]. pose proof (Nat.le_min_r i 10). split; [lia | ].
  apply Z.div_lt_upper_bound; lia.
Qed.

Lemma artifacts_keyed_by_seoul_timestamp_witness :
  wall_clock_in_range env_ok
  /\ In ("/app/src/cache/2023-11-15 07:13:20-response.html", "<ul><li>first</li></ul>")
        (files (final (run env_ok)))
  /\ exists n,
       ("/app/src/cache/2023-11-15 07:13:20-response.html" = cache_key env_ok n
        \/ "/app/src/cache/2023-11-15 07:13:20-response.html" = record_key env_ok n)
       /\ is_timestamp (stamp_at env_ok n) = true
       /\ parse_timestamp (stamp_at env_ok n) = Some (seoul_fields env_ok n)
       /\ Moment.utc_offset_s (Moment.tz (wall_now env_ok n) "Asia/Seoul") = 9 * 3600.
Proof.
  assert (Hin : In ("/app/src/cache/2023-11-15 07:13:20-response.html",
                    "<ul><li>first</li></ul>") (files (final (run env_ok))))
    by (vm_compute; left; reflexivity).
  split; [exact env_ok_wall_clock | split; [exact Hin | ]].
  exact (proj1 (artifacts_keyed_by_seoul_timestamp env_ok env_ok_wall_clock) _ _ Hin).
Defined.

End Artifacts.

Module Fetches.

Import Program Properties Samples Exec.

(** C9: a run that reaches [Done] has made exactly two requests for the
    source URL, the first by axios and the second by the cheerio loader.  The
    page written to the cache directory is the body of the first response;
    the documents that are split, indexed and questioned are selected from
    the body of the second.  Nothing makes the two bodies equal: there is a
    successful run in which they differ. *)
Theorem cached_page_and_summarised_page_are_fetched_separately :
  (forall env, pipeline (run env) = Done ->
     exists raw page docs chunks emb store model answer,
       requests (final (run env))
       = [(Axios, domain config); (CheerioLoader, domain config)]
       /\ http_response env 0 (domain config) = Normal raw
       /\ http_response env 1 (domain config) = Normal page
       /\ files (final (run env))
          = [(cache_key env 0, raw); (record_key env 1, text answer)]
       /\ cheerio_select env "li" page = Normal docs
       /\ splitDocuments env splitter_params docs = Normal chunks
       /\ fromDocuments env (as_documents chunks) emb = Normal store
       /\ chain_call env model store (query config) = Normal answer
       /\ calls (final (run env))
          = [CallSplit docs (Normal chunks);
             CallFromDocuments (as_documents chunks) (Normal store);
             CallChain store (query config) (Normal answer)])
  /\ (exists env raw page,
        pipeline (run env) = Done
        /\ http_response env 0 (domain config) = Normal raw
        /\ http_response env 1 (domain config) = Normal page
        /\ raw <> page).
Proof.
  split.
  - intros env. run_main; finished.
    all: lazymatch goal with
         | |- Failed _ = Done -> _ => intros H; discriminate H
         | |- Done = Done -> _ => intros _
         end.
    all: do 8 eexists; repeat split; try eassumption; reflexivity.
  - exists env_ok, "<ul><li>first</li></ul>", "<ul><li>second</li></ul>".
    repeat split; try (vm_compute; reflexivity). discriminate.
Qed.

Lemma cached_page_and_summarised_page_are_fetched_separately_witness :
  pipeline (run env_ok) = Done
  /\ exists raw page docs chunks emb store model answer,
       requests (final (run env_ok))
       = [(Axios, domain config); (CheerioLoader, domain config)]
       /\ http_response env_ok 0 (domain config) = Normal raw
       /\ http_response env_ok 1 (domain config) = Normal page
       /\ files (final (run env_ok))
          = [(cache_key env_ok 0, raw); (record_key env_ok 1, text answer)]
       /\ cheerio_select env_ok "li" page = Normal docs
       /\ splitDocuments env_ok splitter_params docs = Normal chunks
       /\ fromDocuments env_ok (as_documents chunks) emb = Normal store
       /\ chain_call env_ok model store (query config) = Normal answer
       /\ calls (final (run env_ok))
          = [CallSplit docs (Normal chunks);
             CallFromDocuments (as_documents chunks) (Normal store);
             CallChain store (query config) (Normal answer)].
Proof.
  assert (Hdone : pipeline (run env_ok) = Done) by (vm_compute; reflexivity).
  split; [exact Hdone | ].
  exact (proj1 cached_page_and_summarised_page_are_fetched_separately env_ok Hdone).
Defined.

End Fetches.

(* ===================================================================== *)
(** * The chunker                                                         *)
(* ===================================================================== *)

Module ChunkerFacts.

Import TextChunker.

Section Scan.

Context {char : Type}.
Variable is_break : Boundary -> list char -> Z -> bool.
Variable window : Z.

Lemma last_break_range b text lo n p :
  last_break is_break b text lo n = Some p -> lo < p <= lo + Z.of_nat n.
Proof.
  induction n as [| k IH]; cbn [last_break]; intros H.
  - discriminate H.
  - destruct (is_break b text (lo + Z.of_nat (S k))).
    + injection H as <-. lia.
    + apply IH in H. lia.
Qed.

(** A cut lies after the chunk's start and never beyond the limit. *)
Lemma cut_range text s e : s < e -> s < cut is_break window text s e <= e.
Proof.
  intros Hse. unfold cut.
  set (lo := Z.max s (e - window)).
  assert (Hbound : forall b p,
            last_break is_break b text lo (Z.to_nat (e - lo)) = Some p -> s < p <= e).
  { intros b p Hp. apply last_break_range in Hp. subst lo. lia. }
  destruct (last_break is_break ParagraphBreak text lo (Z.to_nat (e - lo))) eqn:Hp;
    [exact (Hbound _ _ Hp) | ].
  destruct (last_break is_break SentenceBreak text lo (Z.to_nat (e - lo))) eqn:Hs;
    [exact (Hbound _ _ Hs) | ].
  destruct (last_break is_break WordBreak text lo (Z.to_nat (e - lo))) eqn:Hw;
    [exact (Hbound _ _ Hw) | ].
  lia.
Qed.

Lemma slice_length (text : list char) s e :
  0 <= s <= e -> e <= Z.of_nat (List.length text) ->
  Z.of_nat (List.length (slice text s e)) = e - s.
Proof.
  intros Hse He. unfold slice. rewrite length_firstn, length_skipn. lia.
Qed.

Lemma scan_total text maxSize overlap :
  0 < maxSize -> 0 <= overlap < maxSize ->
  forall fuel s,
    0 <= s < Z.of_nat (List.length text) ->
    Z.of_nat (List.length text) - s <= Z.of_nat fuel ->
    exists chunks,
      scan is_break window fuel text maxSize overlap s = Some chunks
      /\ Forall (well_cut text maxSize) chunks
      /\ Forall (fun c => s <= start c) chunks
      /\ StronglySorted Z.lt (map start chunks).
Proof.
  intros Hmax Hover. induction fuel as [| fuel IH]; intros s Hs Hfuel.
  - lia.
  - cbn [scan]. destruct (Z.leb_spec (Z.of_nat (List.length text)) (s + maxSize)) as [Hfits | Hmore].
    + eexists. split; [reflexivity | ].
      assert (Hlen := slice_length text s (Z.of_nat (List.length text)) ltac:(lia) ltac:(lia)).
      repeat split.
      * constructor; [ | constructor]. unfold well_cut. cbn [start stop content].
        repeat split; try lia.
      * constructor; [cbn; lia | constructor].
      * cbn [map]. constructor; constructor.
    + destruct (IH (s + (maxSize - overlap)) ltac:(lia) ltac:(lia))
        as (rest & Hrest & Hwell & Hafter & Hsorted).
      rewrite Hrest. eexists. split; [reflexivity | ].
      pose proof (cut_range text s (s + maxSize) ltac:(lia)) as Hcut.
      assert (Hlen := slice_length text s (cut is_break window text s (s + maxSize))
                        ltac:(lia) ltac:(lia)).
      repeat split.
      * constructor; [ | exact Hwell]. unfold well_cut. cbn [start stop content].
        repeat split; try lia.
      * constructor; [cbn; lia | ].
        eapply Forall_impl; [ | exact Hafter]. cbn beta. intros c Hc. lia.
      * cbn [map start]. constructor; [exact Hsorted | ].
        apply Forall_map. eapply Forall_impl; [ | exact Hafter]. cbn beta. intros c Hc. lia.
Qed.

End Scan.

(** C3: for every text and every valid pair [maxSize > 0],
    [0 <= overlap < maxSize], the splitter returns (it is never cut short by
    its fuel, so it cannot loop forever), every chunk it returns is a
    non-empty slice of the text of length at most [maxSize], and the start
    offsets of the chunks are strictly increasing. *)
Theorem split_chunks_bounded_and_advancing :
  forall (char : Type) (is_break : Boundary -> list char -> Z -> bool) (window : Z)
         (text : list char) (maxSize overlap : Z),
    0 < maxSize -> 0 <= overlap < maxSize ->
    exists chunks,
      split is_break window text maxSize overlap = Chunks chunks
      /\ Forall (fun c => Z.of_nat (List.length (content c)) <= maxSize) chunks
      /\ Forall (fun c => 0 <= start c < stop c
                          /\ stop c <= Z.of_nat (List.length text)
                          /\ content c = slice text (start c) (stop c)) chunks
      /\ StronglySorted Z.lt (map start chunks)
      /\ NoDup (map start chunks).
Proof.
  intros char is_break window text maxSize overlap Hmax Hover.
  unfold split.
  destruct (Z.leb_spec maxSize 0) as [? | _]; [lia | ].
  destruct (Z.leb_spec maxSize overlap) as [? | _]; [lia | ].
  cbn [orb].
  destruct text as [| c text'] eqn:Htext.
  - exists []. repeat split; constructor.
  - rewrite <- Htext.
    destruct (scan_total is_break window text maxSize overlap Hmax Hover
                (List.length text) 0) as (chunks & Hscan & Hwell & _ & Hsorted).
    { subst text. cbn [List.length]. lia. }
    { lia. }
    rewrite Hscan. exists chunks. split; [reflexivity | ].
    assert (Hnodup : forall l, StronglySorted Z.lt l -> NoDup l).
    { induction 1 as [| x l Hl IHl Hx]; constructor; [ | exact IHl].
      intros Hin. rewrite Forall_forall in Hx. specialize (Hx x Hin). lia. }
    repeat split; try (eapply Forall_impl; [ | exact Hwell]; unfold well_cut; cbn beta;
                       intros ch Hch; (lia || tauto || (repeat split; (lia || tauto)))).
    + exact Hsorted.
    + exact (Hnodup _ Hsorted).
Qed.

Lemma split_chunks_bounded_and_advancing_witness :
  0 < 4 /\ 0 <= 1 < 4
  /\ exists chunks,
       split Samples.word_break_at_space 2 (list_ascii_of_string "ab cdefghi") 4 1 = Chunks chunks
       /\ Forall (fun c => Z.of_nat (List.length (content c)) <= 4) chunks
       /\ Forall (fun c => 0 <= start c < stop c
                           /\ stop c <= Z.of_nat (List.length (list_ascii_of_string "ab cdefghi"))
                           /\ content c
                              = slice (list_ascii_of_string "ab cdefghi") (start c) (stop c))
                 chunks
       /\ StronglySorted Z.lt (map start chunks)
       /\ NoDup (map start chunks).
Proof.
  split; [lia | split; [lia | ]].
  apply (split_chunks_bounded_and_advancing ascii Samples.word_break_at_space 2
           (list_ascii_of_string "ab cdefghi") 4 1); lia.
Defined.

End ChunkerFacts.

Module ScenarioFacts.

Import TextChunker.

Section Scenario.

Context {char : Type}.
Variable is_break : Boundary -> list char -> Z -> bool.
Variable window : Z.

Lemma last_break_none text b lo n :
  (forall p, lo < p <= lo + Z.of_nat n -> is_break b text p = false) ->
  last_break is_break b text lo n = None.
Proof.
  induction n as [| k IH]; cbn [last_break]; intros Hnone.
  - reflexivity.
  - rewrite Hnone by lia. apply IH. intros p Hp. apply Hnone. lia.
Qed.

Lemma last_break_is_break text b lo n p :
  last_break is_break b text lo n = Some p -> is_break b text p = true.
Proof.
  induction n as [| k IH]; cbn [last_break]; intros H.
  - discriminate H.
  - destruct (is_break b text (lo + Z.of_nat (S k))) eqn:Hb.
    + injection H as <-. exact Hb.
    + apply IH. exact H.
Qed.

Lemma last_break_found text b lo n p :
  lo < p <= lo + Z.of_nat n -> is_break b text p = true ->
  last_break is_break b text lo n <> None.
Proof.
  induction n as [| k IH]; cbn [last_break]; intros Hp Hb.
  - lia.
  - destruct (is_break b text (lo + Z.of_nat (S k))) eqn:Hlast; [discriminate | ].
    apply IH; [ | exact Hb].
    assert (p <> lo + Z.of_nat (S k)) by (intros ->; congruence). lia.
Qed.

(** With no preferred boundary in the trailing window the cut is the raw one. *)
Lemma cut_raw text s e :
  (forall b p, e - window < p <= e -> is_break b text p = false) ->
  cut is_break window text s e = e.
Proof.
  intros Hnone. unfold cut.
  rewrite !last_break_none; [reflexivity | | | ]; intros p Hp; apply Hnone; lia.
Qed.

(** With a preferred boundary in the trailing window the cut is at one. *)
Lemma cut_at_break text s e b p :
  s < p <= e -> e - window < p -> is_break b text p = true ->
  s < cut is_break window text s e <= e
  /\ exists b', is_break b' text (cut is_break window text s e) = true.
Proof.
  intros Hp Hw Hb.
  split; [apply ChunkerFacts.cut_range; lia | ].
  unfold cut.
  set (lo := Z.max s (e - window)).
  assert (Hin : lo < p <= lo + Z.of_nat (Z.to_nat (e - lo))) by (subst lo; lia).
  destruct (last_break is_break ParagraphBreak text lo (Z.to_nat (e - lo))) as [q | ] eqn:Hpar;
    [exists ParagraphBreak; exact (last_break_is_break _ _ _ _ _ Hpar) | ].
  destruct (last_break is_break SentenceBreak text lo (Z.to_nat (e - lo))) as [q | ] eqn:Hsen;
    [exists SentenceBreak; exact (last_break_is_break _ _ _ _ _ Hsen) | ].
  destruct (last_break is_break WordBreak text lo (Z.to_nat (e - lo))) as [q | ] eqn:Hwor;
    [exists WordBreak; exact (last_break_is_break _ _ _ _ _ Hwor) | ].
  exfalso. destruct b.
  - exact (last_break_found text _ lo _ p Hin Hb Hpar).
  - exact (last_break_found text _ lo _ p Hin Hb Hsen).
  - exact (last_break_found text _ lo _ p Hin Hb Hwor).
Qed.

Lemma scan_last fuel text maxSize overlap s :
  Z.of_nat (List.length text) <= s + maxSize ->
  scan is_break window (S fuel) text maxSize overlap s
  = Some [mkChunk s (Z.of_nat (List.length text))
            (slice text s (Z.of_nat (List.length text)))].
Proof.
  intros H. cbn [scan]. destruct (Z.leb_spec (Z.of_nat (List.length text)) (s + maxSize));
    [reflexivity | lia].
Qed.

Lemma scan_more fuel text maxSize overlap s :
  s + maxSize < Z.of_nat (List.length text) ->
  scan is_break window (S fuel) text maxSize overlap s
  = match scan is_break window fuel text maxSize overlap (s + (maxSize - overlap)) with
    | Some rest =>
      Some (mkChunk s (cut is_break window text s (s + maxSize))
              (slice text s (cut is_break window text s (s + maxSize))) :: rest)
    | None => None
    end.
Proof.
  intros H. cbn [scan]. destruct (Z.leb_spec (Z.of_nat (List.length text)) (s + maxSize));
    [lia | reflexivity].
Qed.

End Scenario.

(** The first three steps of the scan of a text of 4500 characters. *)
Lemma split_4500 (char : Type) (is_break : Boundary -> list char -> Z -> bool)
    (window : Z) (text : list char) :
  List.length text = 4500%nat ->
  split is_break window text
    (Program.chunkSize Program.splitter_params)
    (Program.chunkOverlap Program.splitter_params)
  = Chunks [mkChunk 0 (cut is_break window text 0 2000)
              (slice text 0 (cut is_break window text 0 2000));
            mkChunk 1900 (cut is_break window text 1900 3900)
              (slice text 1900 (cut is_break window text 1900 3900));
            mkChunk 3800 4500 (slice text 3800 4500)].
Proof.
  intros Hlen.
  assert (HlenZ : Z.of_nat (List.length text) = 4500) by (rewrite Hlen; reflexivity).
  unfold split. cbn [Program.chunkSize Program.chunkOverlap Program.splitter_params].
  change ((2000 <=? 0) || (2000 <=? 100)) with false. cbv iota.
  destruct text as [| c text'] eqn:Htext; [discriminate Hlen | ]. rewrite <- Htext in *.
  clear Htext c text'.
  rewrite Hlen. change 4500%nat with (S (S (S 4497))).
  rewrite (scan_more is_break window _ text 2000 100 0) by lia.
  change (0 + (2000 - 100)) with 1900.
  rewrite (scan_more is_break window _ text 2000 100 1900) by lia.
  change (1900 + (2000 - 100)) with 3800.
  rewrite (scan_last is_break window _ text 2000 100 3800) by lia.
  rewrite HlenZ. reflexivity.
Qed.

(** C2 (amended): a text of exactly 4500 characters in which no offset is a
    paragraph, sentence or word break, split with the script's configuration
    (size 2000, overlap 100), yields exactly three chunks, covering
    [0, 2000), [1900, 3900) and [3800, 4500).  When instead some offset of
    the first chunk's trailing window, before offset 2000, is a break and
    offset 2000 is none, the first chunk ends at a break before offset
    2000. *)
Theorem scenario_4500_three_chunks :
  forall (char : Type) (is_break : Boundary -> list char -> Z -> bool) (window : Z)
         (text : list char),
    List.length text = 4500%nat ->
    ((forall b p, is_break b text p = false) ->
     split is_break window text
       (Program.chunkSize Program.splitter_params)
       (Program.chunkOverlap Program.splitter_params)
     = Chunks [mkChunk 0 2000 (slice text 0 2000);
               mkChunk 1900 3900 (slice text 1900 3900);
               mkChunk 3800 4500 (slice text 3800 4500)])
    /\ (forall b p,
          0 < p < 2000 -> 2000 - window < p -> is_break b text p = true ->
          (forall b', is_break b' text 2000 = false) ->
          exists e1 rest,
            split is_break window text
              (Program.chunkSize Program.splitter_params)
              (Program.chunkOverlap Program.splitter_params)
            = Chunks (mkChunk 0 e1 (slice text 0 e1) :: rest)
            /\ 0 < e1 < 2000
            /\ exists b', is_break b' text e1 = true).
Proof.
  intros char is_break window text Hlen.
  rewrite (split_4500 char is_break window text Hlen).
  split.
  - intros Hnone.
    rewrite !(cut_raw is_break window) by (intros b p _; apply Hnone).
    reflexivity.
  - intros b p Hp Hw Hb Hnone.
    destruct (cut_at_break is_break window text 0 2000 b p ltac:(lia) Hw Hb)
      as [Hrange [b' Hb']].
    eexists. eexists. split; [reflexivity | ].
    split; [ | exists b'; exact Hb'].
    assert (cut is_break window text 0 2000 <> 2000)
      by (intros Heq; rewrite Heq, Hnone in Hb'; discriminate Hb').
    lia.
Qed.

Lemma unbroken_has_no_break b p :
  Samples.word_break_before_space b Samples.text_unbroken p = false.
Proof.
  destruct b; try reflexivity.
  unfold Samples.word_break_before_space, Samples.text_unbroken.
  destruct (nth_error (repeat "a"%char 4500) (Z.to_nat p)) as [c | ] eqn:Hc;
    [ | reflexivity].
  apply nth_error_In, repeat_spec in Hc. subst c. apply andb_false_r.
Qed.

Lemma scenario_4500_three_chunks_witness :
  (List.length Samples.text_unbroken = 4500%nat
   /\ split Samples.word_break_before_space 100 Samples.text_unbroken
        (Program.chunkSize Program.splitter_params)
        (Program.chunkOverlap Program.splitter_params)
      = Chunks [mkChunk 0 2000 (slice Samples.text_unbroken 0 2000);
                mkChunk 1900 3900 (slice Samples.text_unbroken 1900 3900);
                mkChunk 3800 4500 (slice Samples.text_unbroken 3800 4500)])
  /\ (List.length Samples.text_4500 = 4500%nat
      /\ Samples.word_break_before_space WordBreak Samples.text_4500 1989 = true
      /\ exists e1 rest,
           split Samples.word_break_before_space 100 Samples.text_4500
             (Program.chunkSize Program.splitter_params)
             (Program.chunkOverlap Program.splitter_params)
           = Chunks (mkChunk 0 e1 (slice Samples.text_4500 0 e1) :: rest)
           /\ 0 < e1 < 2000
           /\ exists b', Samples.word_break_before_space b' Samples.text_4500 e1 = true).
Proof.
  assert (Hlen : List.length Samples.text_unbroken = 4500%nat) by (vm_compute; reflexivity).
  assert (Hlen' : List.length Samples.text_4500 = 4500%nat) by (vm_compute; reflexivity).
  assert (Hbreak : Samples.word_break_before_space WordBreak Samples.text_4500 1989 = true)
    by (vm_compute; reflexivity).
  split.
  - split; [exact Hlen | ].
    exact (proj1 (scenario_4500_three_chunks ascii Samples.word_break_before_space 100
                    Samples.text_unbroken Hlen)
             unbroken_has_no_break).
  - split; [exact Hlen' | split; [exact Hbreak | ]].
    refine (proj2 (scenario_4500_three_chunks ascii Samples.word_break_before_space 100
                     Samples.text_4500 Hlen')
              WordBreak 1989 _ _ Hbreak _).
    + lia.
    + lia.
    + intros b'. destruct b'; vm_compute; reflexivity.
Defined.

(** C2 as stated fails: in a text of 4500 characters with a space at offset
    1989, the first chunk is cut at the word break and stops short of offset
    2000, so the three chunks are not those the claim lists. *)
Lemma scenario_4500_first_chunk_cut_short :
  List.length Samples.text_4500 = 4500%nat
  /\ first_stop (split Samples.word_break_before_space 100 Samples.text_4500 2000 100)
     = Some 1989
  /\ ~ (exists c1 c2 c3,
          split Samples.word_break_before_space 100 Samples.text_4500 2000 100
          = Chunks [c1; c2; c3]
          /\ start c1 = 0 /\ stop c1 = 2000
          /\ start c2 = 1900
          /\ start c3 = 3800 /\ stop c3 = 4500).
Proof.
  assert (Hfirst : first_stop (split Samples.word_break_before_space 100
                                 Samples.text_4500 2000 100)
                   = Some 1989) by (vm_compute; reflexivity).
  split; [vm_compute; reflexivity | ].
  split; [exact Hfirst | ].
  intros (c1 & c2 & c3 & Hsplit & _ & Hstop & _).
  rewrite Hsplit in Hfirst. cbn [first_stop] in Hfirst.
  injection Hfirst as Heq. lia.
Qed.

End ScenarioFacts.

(* ===================================================================== *)
(** * The vector index                                                    *)
(* ===================================================================== *)

Module IndexFacts.

Import VectorIndex.

Local Open Scope R_scope.

(** ** The signed square orders the reals as they are *)

Lemma ssq_nonneg t : 0 <= t -> ssq t = t * t.
Proof. intros H. unfold ssq. rewrite Rabs_pos_eq by exact H. reflexivity. Qed.

Lemma ssq_neg t : t < 0 -> ssq t = - (t * t).
Proof. intros H. unfold ssq. rewrite Rabs_left by exact H. lra. Qed.

Lemma ssq_lt x y : x < y -> ssq x < ssq y.
Proof.
  intros Hxy.
  destruct (Rle_lt_dec 0 x) as [Hx | Hx]; destruct (Rle_lt_dec 0 y) as [Hy | Hy].
  - rewrite !ssq_nonneg by assumption. nra.
  - lra.
  - rewrite (ssq_neg x Hx), (ssq_nonneg y Hy). nra.
  - rewrite !ssq_neg by assumption. nra.
Qed.

Lemma ssq_le_iff x y : ssq x <= ssq y <-> x <= y.
Proof.
  split; intros H.
  - destruct (Rle_lt_dec x y) as [Hle | Hlt]; [exact Hle | ].
    apply ssq_lt in Hlt. lra.
  - destruct H as [Hlt | ->]; [apply ssq_lt in Hlt; lra | lra].
Qed.

Lemma ssq_eq_iff x y : ssq x = ssq y <-> x = y.
Proof.
  split; intros H; [ | subst; reflexivity].
  apply Rle_antisym; apply ssq_le_iff; lra.
Qed.

(** ** Dot products in the reals *)

Lemma Q2R_dot_cons x a y b :
  Q2R (dot (x :: a) (y :: b)) = Q2R x * Q2R y + Q2R (dot a b).
Proof. cbn [dot]. rewrite Q2R_plus, Q2R_mult. reflexivity. Qed.

Lemma norm2_nonneg a : 0 <= Q2R (norm2 a).
Proof.
  unfold norm2. induction a as [| x a IH].
  - cbn [dot]. unfold Q2R. cbn. lra.
  - rewrite Q2R_dot_cons. nra.
Qed.

Lemma Q2R_zero : Q2R 0 = 0.
Proof. unfold Q2R. cbn. lra. Qed.

Lemma dot_zero_right a : Q2R (norm2 a) = 0 -> forall q, Q2R (dot q a) = 0.
Proof.
  unfold norm2. induction a as [| x a IH]; intros Hn q.
  - destruct q; cbn [dot]; exact Q2R_zero.
  - destruct q as [| y q]; [cbn [dot]; exact Q2R_zero | ].
    rewrite Q2R_dot_cons in *. pose proof (norm2_nonneg a) as Ha. unfold norm2 in Ha.
    assert (Hx : Q2R x = 0) by nra.
    assert (Hrest : Q2R (dot a a) = 0) by nra.
    rewrite (IH Hrest q), Hx. lra.
Qed.

Lemma dot_zero_left q : Q2R (norm2 q) = 0 -> forall a, Q2R (dot q a) = 0.
Proof.
  unfold norm2. induction q as [| y q IH]; intros Hn a.
  - cbn [dot]. exact Q2R_zero.
  - destruct a as [| x a]; [cbn [dot]; exact Q2R_zero | ].
    rewrite Q2R_dot_cons in *. pose proof (norm2_nonneg q) as Hq. unfold norm2 in Hq.
    assert (Hy : Q2R y = 0) by nra.
    assert (Hrest : Q2R (dot q q) = 0) by nra.
    rewrite (IH Hrest a), Hy. lra.
Qed.

Lemma Q2R_signed_square d : Q2R (signed_square d) = ssq (Q2R d).
Proof.
  unfold signed_square. destruct (Qle_bool 0 d) eqn:Hd.
  - apply Qle_bool_iff, Qle_Rle in Hd. rewrite Q2R_zero in Hd.
    rewrite Q2R_mult, ssq_nonneg by exact Hd. reflexivity.
  - assert (Hneg : Q2R d < 0).
    { apply Rnot_le_lt. intros Hle. rewrite <- Q2R_zero in Hle.
      apply Rle_Qle, Qle_bool_iff in Hle. congruence. }
    rewrite Q2R_opp, Q2R_mult, ssq_neg by exact Hneg. reflexivity.
Qed.

(** The key the ranking compares is the signed square of the cosine. *)
Lemma rank_key_cosine q a : Q2R (rank_key q a) = ssq (cosine q a).
Proof.
  unfold rank_key, cosine.
  set (d := dot q a). set (n := (norm2 q * norm2 a)%Q).
  assert (Hn : 0 <= Q2R n).
  { subst n. rewrite Q2R_mult.
    apply Rmult_le_pos; apply norm2_nonneg. }
  destruct (Req_dec (Q2R n) 0) as [Hzero | Hpos].
  - assert (Hd : Q2R d = 0).
    { subst n d. rewrite Q2R_mult in Hzero.
      apply Rmult_integral in Hzero as [Hq | Ha];
        [apply dot_zero_left | apply dot_zero_right]; assumption. }
    unfold Qdiv. rewrite Q2R_mult, Q2R_signed_square, Hd.
    unfold ssq, Rdiv. rewrite !Rmult_0_l. reflexivity.
  - assert (Hne : ~ (n == 0)%Q).
    { intros Heq. apply Hpos. rewrite (Qeq_eqR _ _ Heq). exact Q2R_zero. }
    rewrite Q2R_div by exact Hne. rewrite Q2R_signed_square.
    assert (Hs : 0 < sqrt (Q2R n)) by (apply sqrt_lt_R0; lra).
    unfold ssq. unfold Rdiv at 2 3.
    rewrite Rabs_mult, (Rabs_pos_eq (/ sqrt (Q2R n))) by (left; apply Rinv_0_lt_compat; exact Hs).
    rewrite <- (sqrt_sqrt (Q2R n)) at 1 by exact Hn.
    field. lra.
Qed.

Lemma key_le_cosine q a b :
  (rank_key q a <= rank_key q b)%Q <-> cosine q a <= cosine q b.
Proof.
  rewrite <- ssq_le_iff, <- !rank_key_cosine. split; [apply Qle_Rle | apply Rle_Qle].
Qed.

Lemma key_lt_cosine q a b :
  (rank_key q a < rank_key q b)%Q <-> cosine q a < cosine q b.
Proof.
  split; intros H.
  - apply Rnot_le_lt. intros Hle. apply key_le_cosine in Hle.
    apply Qle_not_lt in Hle. contradiction.
  - apply Qnot_le_lt. intros Hle. apply key_le_cosine in Hle. lra.
Qed.

Local Close Scope R_scope.

(** ** Ranking *)

Lemma insert_permutation q h l : Permutation (insert q h l) (h :: l).
Proof.
  induction l as [| g l IH]; cbn [insert].
  - apply Permutation_refl.
  - destruct (Qle_bool _ _).
    + apply Permutation_refl.
    + rewrite IH. apply perm_swap.
Qed.

Lemma rank_permutation q l : Permutation (rank q l) l.
Proof.
  induction l as [| h l IH]; cbn [rank].
  - apply Permutation_refl.
  - rewrite insert_permutation. apply perm_skip. exact IH.
Qed.

Lemma insert_sorted q h l :
  Forall (fun g => (position h < position g)%nat) l ->
  StronglySorted (ranks_before q) l ->
  StronglySorted (ranks_before q) (insert q h l).
Proof.
  intros Hpos Hsorted. induction Hsorted as [| g l Hl IH Hg]; cbn [insert].
  - constructor; constructor.
  - apply Forall_cons_iff in Hpos as [Hhg Hpos].
    destruct (Qle_bool (rank_key q (vector (entry g))) (rank_key q (vector (entry h))))
      eqn:Hcmp.
    + (* [g] is not more similar than [h], and [h] was indexed first *)
      apply Qle_bool_iff, key_le_cosine in Hcmp.
      assert (Hbefore : forall z, ranks_before q g z \/ z = g ->
                (position h < position z)%nat -> ranks_before q h z).
      { intros z [[Hlt | [Heq _]] | ->] Hz; unfold ranks_before.
        - left. lra.
        - destruct Hcmp as [Hlt | Heq']; [left; lra | right; split; [lra | exact Hz]].
        - destruct Hcmp as [Hlt | Heq']; [left; lra | right; split; [lra | exact Hz]]. }
      constructor; [constructor; assumption | ].
      constructor; [apply Hbefore; [right; reflexivity | exact Hhg] | ].
      rewrite Forall_forall in *. intros z Hz.
      apply Hbefore; [left; apply Hg; exact Hz | apply Hpos; exact Hz].
    + (* [g] is strictly more similar than [h] *)
      assert (Hlt : (rank_key q (vector (entry h)) < rank_key q (vector (entry g)))%Q).
      { apply Qnot_le_lt. intros Hle. apply Qle_bool_iff in Hle. congruence. }
      apply key_lt_cosine in Hlt.
      constructor; [apply IH; exact Hpos | ].
      rewrite Forall_forall in *. intros z Hz.
      apply (Permutation_in _ (insert_permutation q h l)) in Hz.
      destruct Hz as [<- | Hz]; [left; exact Hlt | apply Hg; exact Hz].
Qed.

Lemma rank_sorted q l :
  StronglySorted lt (map position l) ->
  StronglySorted (ranks_before q) (rank q l).
Proof.
  induction l as [| h l IH]; cbn [rank map]; intros Hpos.
  - constructor.
  - apply StronglySorted_inv in Hpos as [Hrest Hh].
    apply insert_sorted; [ | apply IH; exact Hrest].
    rewrite Forall_forall in *. intros g Hg.
    apply (Permutation_in _ (rank_permutation q l)) in Hg.
    apply Hh. apply in_map. exact Hg.
Qed.

(** ** Enumeration *)

Lemma enumerate_positions idx : forall n,
  map position (enumerate_from n idx) = seq n (List.length idx).
Proof.
  induction idx as [| e idx IH]; intros n; cbn [enumerate_from map seq List.length].
  - reflexivity.
  - cbn [position]. rewrite IH. reflexivity.
Qed.

Lemma enumerate_entries idx : forall n, map entry (enumerate_from n idx) = idx.
Proof.
  induction idx as [| e idx IH]; intros n; cbn [enumerate_from map].
  - reflexivity.
  - cbn [entry]. rewrite IH. reflexivity.
Qed.

Lemma enumerate_in idx : forall n h,
  In h (enumerate_from n idx) <->
  (n <= position h)%nat /\ nth_error idx (position h - n) = Some (entry h).
Proof.
  induction idx as [| e idx IH]; intros n h; cbn [enumerate_from In].
  - split; [contradiction | ]. intros [_ H]. destruct (position h - n)%nat; discriminate H.
  - rewrite IH. split.
    + intros [<- | [Hle Hnth]]; cbn [position entry].
      * rewrite Nat.sub_diag. split; [lia | reflexivity].
      * split; [lia | ]. replace (position h - n)%nat with (S (position h - S n)) by lia.
        exact Hnth.
    + intros [Hle Hnth]. destruct (Nat.eq_dec (position h) n) as [Heq | Hne].
      * left. rewrite Heq, Nat.sub_diag in Hnth. cbn in Hnth. injection Hnth as ->.
        destruct h as [ph eh]. cbn in *. subst. reflexivity.
      * right. split; [lia | ].
        replace (position h - n)%nat with (S (position h - S n)) in Hnth by lia.
        exact Hnth.
Qed.

Lemma seq_sorted len : forall n, StronglySorted lt (seq n len).
Proof.
  induction len as [| len IH]; intros n; cbn [seq]; constructor.
  - apply IH.
  - rewrite Forall_forall. intros m Hm. apply in_seq in Hm. lia.
Qed.

Lemma sorted_app_before {A : Type} (R : A -> A -> Prop) (l1 l2 : list A) :
  StronglySorted R (l1 ++ l2) ->
  StronglySorted R l1 /\ forall x y, In x l1 -> In y l2 -> R x y.
Proof.
  induction l1 as [| a l1 IH]; cbn [app]; intros H.
  - split; [constructor | intros x y []].
  - apply StronglySorted_inv in H as [Hrest Ha].
    destruct (IH Hrest) as [Hs Hb]. rewrite Forall_forall in Ha.
    split.
    + constructor; [exact Hs | ]. rewrite Forall_forall. intros x Hx.
      apply Ha. apply in_or_app. left. exact Hx.
    + intros x y [<- | Hx] Hy; [apply Ha; apply in_or_app; right; exact Hy | ].
      apply Hb; assumption.
Qed.

(** C1: for every built index, every query vector and every [k > 0],
    [Index.query] returns [min k n] of the [n] indexed entries, each with its
    place in the index and none twice; the result is ranked by descending
    cosine similarity, computed over all indexed vectors, with equal
    similarities in insertion order; every entry left out ranks after every
    entry returned; fewer than [k] results come back only when the index holds
    fewer than [k] entries, and with [k] at least the index size the result is a
    rearrangement of the whole index. *)
Theorem query_returns_top_k_by_cosine :
  forall (embeddedChunks : list EmbeddedChunk) (idx : Index) (q : Vector) (k : nat),
    build embeddedChunks = Normal idx ->
    (0 < k)%nat ->
    let hits := query idx q k in
    List.length hits = Nat.min k (List.length idx)
    /\ (forall h, In h hits -> nth_error idx (position h) = Some (entry h))
    /\ NoDup (map position hits)
    /\ StronglySorted (ranks_before q) hits
    /\ (forall i e h,
          nth_error idx i = Some e -> ~ In i (map position hits) -> In h hits ->
          ranks_before q h (mkHit i e))
    /\ ((List.length hits < k)%nat -> (List.length idx < k)%nat)
    /\ ((List.length idx <= k)%nat -> Permutation (map entry hits) idx).
Proof.
  intros embeddedChunks idx q k Hbuild Hk hits.
  set (all := rank q (enumerate_from 0 idx)).
  assert (Hperm : Permutation all (enumerate_from 0 idx)) by apply rank_permutation.
  assert (Hlen : List.length all = List.length idx).
  { rewrite (Permutation_length Hperm), <- (length_map position), enumerate_positions.
    apply length_seq. }
  assert (Hsorted : StronglySorted (ranks_before q) all).
  { apply rank_sorted. rewrite enumerate_positions. apply seq_sorted. }
  assert (Hnodup : NoDup (map position all)).
  { apply (Permutation_NoDup (l := map position (enumerate_from 0 idx))).
    - apply Permutation_map, Permutation_sym, Hperm.
    - rewrite enumerate_positions. apply seq_NoDup. }
  assert (Hsplit : all = hits ++ skipn k all) by (symmetry; apply firstn_skipn).
  assert (Hhits : List.length hits = Nat.min k (List.length idx)).
  { subst hits. unfold query. fold all. rewrite length_firstn, Hlen. reflexivity. }
  rewrite Hsplit in Hsorted, Hnodup.
  apply sorted_app_before in Hsorted as [Hranked Htop].
  rewrite map_app in Hnodup.
  repeat split.
  - exact Hhits.
  - intros h Hh.
    assert (Hin : In h (enumerate_from 0 idx)).
    { apply (Permutation_in _ Hperm). rewrite Hsplit. apply in_or_app. left. exact Hh. }
    apply enumerate_in in Hin as [_ Hnth]. rewrite Nat.sub_0_r in Hnth. exact Hnth.
  - apply NoDup_app_remove_r in Hnodup. exact Hnodup.
  - exact Hranked.
  - intros i e h Hnth Hout Hh. apply Htop; [exact Hh | ].
    assert (Hin : In (mkHit i e) all).
    { apply (Permutation_in _ (Permutation_sym Hperm)). apply enumerate_in.
      cbn [position entry]. rewrite Nat.sub_0_r. split; [lia | exact Hnth]. }
    rewrite Hsplit in Hin. apply in_app_or in Hin as [Hin | Hin]; [ | exact Hin].
    exfalso. apply Hout. apply (in_map position) in Hin. exact Hin.
  - rewrite Hhits. lia.
  - intros Hall.
    assert (Hwhole : hits = all).
    { subst hits. unfold query. fold all. apply firstn_all2. rewrite Hlen. exact Hall. }
    rewrite Hwhole, (Permutation_map entry Hperm), enumerate_entries.
    apply Permutation_refl.
Qed.

Lemma query_returns_top_k_by_cosine_witness :
  build Samples.sample_index = Normal Samples.sample_index
  /\ (0 < 4)%nat
  /\ map position (query Samples.sample_index [1; 0]%Q 4) = [0; 2; 3; 1]%nat
  /\ StronglySorted (ranks_before [1; 0]%Q) (query Samples.sample_index [1; 0]%Q 4).
Proof.
  split; [reflexivity | split; [lia | split; [vm_compute; reflexivity | ]]].
  destruct (query_returns_top_k_by_cosine Samples.sample_index Samples.sample_index
              [1; 0]%Q 4 eq_refl ltac:(lia)) as (_ & _ & _ & Hranked & _).
  exact Hranked.
Defined.

End IndexFacts.


(* ===================================================================== *)
(** * Further properties of [main]                                        *)
(* ===================================================================== *)

Module TraceFacts.

Import Program Properties Samples Exec Coverage.

Lemma mem_string_In p l : mem_string p l = true <-> In p l.
Proof.
  unfold mem_string. rewrite existsb_exists. split.
  - intros (q & Hq & Heq). apply String.eqb_eq in Heq. subst q. exact Hq.
  - intros H. exists p. split; [exact H | apply String.eqb_refl].
Qed.

Lemma missing_not_occupied env p l :
  mem_string p l || mem_string p (map fst (@nil (string * string)))
  || mem_string p (existing_files env) = false ->
  ~ occupied env l p.
Proof.
  intros H. apply orb_false_iff in H as [H Hfile]. apply orb_false_iff in H as [Hdir _].
  intros [Hin | Hin]; apply mem_string_In in Hin; congruence.
Qed.

Lemma found_occupied env p l :
  mem_string p l || mem_string p (map fst (@nil (string * string)))
  || mem_string p (existing_files env) = true ->
  occupied env l p.
Proof.
  intros H. apply orb_true_iff in H as [H | H].
  - apply orb_true_iff in H as [H | H]; [left; apply mem_string_In; exact H | discriminate H].
  - right. apply mem_string_In. exact H.
Qed.

Section Guarded.

Variables (env : Env) (st : State).

(** [if (!exists) mkdir]: the guard's outcome is known in each branch. *)
Lemma wp_unless (b : bool) (m : M unit) (Q : Completion unit -> State -> Prop) :
  (b = false -> wp m env st Q) -> (b = true -> Q (Normal tt) st) ->
  wp (when (negb b) m) env st Q.
Proof. destruct b; intros Hf Ht; [apply Ht | apply Hf]; reflexivity. Qed.

(** [mkdirSync] on a path that does not exist fails only as the file system
    says. *)
Lemma wp_mkdirSync_missing p (Q : Completion unit -> State -> Prop) :
  mem_string p (directories st) || mem_string p (map fst (files st))
  || mem_string p (existing_files env) = false ->
  (forall e, mkdir_failure env p = Some e -> Q (Throw e) st) ->
  (mkdir_failure env p = None ->
   Q (Normal tt) (with_directories st (directories st ++ [p]))) ->
  wp (fs_mkdirSync p) env st Q.
Proof.
  intros Hmissing Hthrow Hok. unfold wp, fs_mkdirSync. rewrite Hmissing.
  destruct (mkdir_failure env p) as [e | ] eqn:Hm; [apply Hthrow | apply Hok]; reflexivity.
Qed.

Lemma wp_writeFileSync_cases p data (Q : Completion unit -> State -> Prop) :
  (forall e, write_failure env p = Some e -> Q (Throw e) st) ->
  (write_failure env p = None -> Q (Normal tt) (with_files st (files st ++ [(p, data)]))) ->
  wp (fs_writeFileSync p data) env st Q.
Proof.
  intros Hthrow Hok. unfold wp, fs_writeFileSync.
  destruct (write_failure env p) as [e | ] eqn:Hw; [apply Hthrow | apply Hok]; reflexivity.
Qed.

End Guarded.

Ltac trace_head :=
  lazymatch goal with
  | |- wp (when (negb _) _) _ _ _ => apply wp_unless; intros ?
  | |- wp (fs_mkdirSync _) _ _ _ =>
      apply wp_mkdirSync_missing; [assumption | intros ? ? | intros ?]
  | |- wp (fs_writeFileSync _ _) _ _ _ =>
      apply wp_writeFileSync_cases; [intros ? ? | intros ?]
  | _ => wp_head
  end.

Ltac trace_one :=
  first [ progress (cbv beta iota zeta; wp_state) | trace_head | wp_oracle ].

(** Runs [main] keeping what every guard and every file system call said. *)
Ltac trace_main := apply run_wp; unfold main; repeat trace_one.

Ltac absent :=
  match goal with
  | H : _ || _ = false |- ~ In _ _ =>
    let Hin := fresh "Hin" in
    intros Hin; apply (missing_not_occupied _ _ _ H); left;
    first [exact Hin | apply in_or_app; left; exact Hin]
  end.

(** X1: when a run fails, the error it fails with is the one a collaborator
    raised: the script adds no error of its own and wraps none, and when the
    error is [mkdirSync]'s the directory was missing.  The number of lines
    logged by then tells which collaborator it was. *)
Theorem failed_run_names_its_collaborator :
  forall env e,
    pipeline (run env) = Failed e ->
    FailedAt env e (List.length (console (final (run env)))).
Proof.
  intros env e. revert e.
  trace_main; finished.
  all: let e' := fresh "e" in let H := fresh "Hfailed" in
       intros e' H; try discriminate H; injection H as <-; cbn [List.length].
  all: first
    [ apply AtEmbeddings; assumption
    | apply AtFetch; assumption
    | apply AtMkdirCache; [absent | assumption]
    | apply AtMkdirRecord; [absent | assumption]
    | apply AtWriteCache; assumption
    | apply AtLoaderFetch; assumption
    | eapply AtSelect; eassumption
    | eapply AtSplit; eassumption
    | eapply AtIndex; eassumption
    | apply AtChatModel; assumption
    | eapply AtChain; eassumption
    | apply AtWriteRecord; assumption ].
Qed.

Lemma failed_run_names_its_collaborator_witness :
  pipeline (run env_empty) = Failed (mkError "Error" "nothing to search")
  /\ FailedAt env_empty (mkError "Error" "nothing to search")
       (List.length (console (final (run env_empty)))).
Proof.
  assert (H : pipeline (run env_empty) = Failed (mkError "Error" "nothing to search"))
    by (vm_compute; reflexivity).
  split; [exact H | exact (failed_run_names_its_collaborator env_empty _ H)].
Defined.

(** X2: the messages a run logs are the first ones of the script's twelve, in
    the script's order; the performance clock has been read once per line,
    after the reading taken for [startTime]; and once ten lines are logged,
    the text in the tenth is the text the chain answered with. *)
Theorem logged_messages_follow_the_script :
  forall env,
    exists answer,
      let lines := console (final (run env)) in
      map logged lines = firstn (List.length lines) (script_messages answer)
      /\ perf_reads (final (run env)) = S (List.length lines)
      /\ ((10 <= List.length lines)%nat ->
          exists model store reply,
            chain_call env model store (query config) = Normal reply
            /\ answer = text reply).
Proof.
  intros env.
  run_main; finished.
  all: lazymatch goal with
       | H : chain_call _ _ _ _ = Normal ?reply |- _ => exists (text reply)
       | _ => exists ""
       end.
  all: cbv zeta; cbn [List.length map logged]; split; [reflexivity | split; [reflexivity | ]].
  all: intros Hten; first [ exfalso; lia | do 3 eexists; split; [eassumption | reflexivity] ].
Qed.

(** How the directories stand once the run is over. *)
Lemma directories_after_run env :
  DirectoriesAfter env (4 <=? List.length (console (final (run env))))%nat
    (directories (final (run env))).
Proof.
  trace_main; finished.
  all: cbn [List.length Nat.leb].
  all: repeat match goal with
       | H : _ || _ = false |- _ => apply missing_not_occupied in H
       | H : _ || _ = true |- _ => apply found_occupied in H
       end.
  all: first
    [ apply BothExisted; assumption
    | apply CacheCreated; assumption
    | apply RecordCreated; assumption
    | apply BothCreated; assumption
    | apply StoppedBefore
    | apply StoppedAfterCache; assumption ].
Qed.

Lemma occupied_more env dirs p q : occupied env dirs p -> occupied env (dirs ++ [q]) p.
Proof. intros [H | H]; [left; apply in_or_app; left; exact H | right; exact H]. Qed.

Lemma occupied_last env dirs p : occupied env (dirs ++ [p]) p.
Proof. left. apply in_or_app. right. left. reflexivity. Qed.

Lemma directories_shape env passed dirs :
  DirectoriesAfter env passed dirs ->
  exists added,
    dirs = existing_directories env ++ added
    /\ NoDup added
    /\ (forall d, In d added ->
          (d = cacheDir env \/ d = recordDir env)
          /\ ~ occupied env (existing_directories env) d)
    /\ (passed = true ->
        occupied env dirs (cacheDir env) /\ occupied env dirs (recordDir env)).
Proof.
  intros H. destruct H as [Hc Hr | Hc Hr | Hc Hr | Hc Hr | | Hc].
  - exists []. rewrite app_nil_r. split; [reflexivity | ]. split; [constructor | ].
    split; [intros d [] | intros _; split; assumption].
  - exists [cacheDir env]. split; [reflexivity | ]. split; [ | split].
    + constructor; [intros [] | constructor].
    + intros d [<- | []]. split; [left; reflexivity | exact Hc].
    + intros _. split; [apply occupied_last | exact Hr].
  - exists [recordDir env]. split; [reflexivity | ]. split; [ | split].
    + constructor; [intros [] | constructor].
    + intros d [<- | []]. split; [right; reflexivity | exact Hr].
    + intros _. split; [apply occupied_more; exact Hc | apply occupied_last].
  - exists [cacheDir env; recordDir env].
    assert (Hne : cacheDir env <> recordDir env).
    { intros Heq. apply Hr. rewrite <- Heq. apply occupied_last. }
    split; [rewrite <- app_assoc; reflexivity | ]. split; [ | split].
    + constructor; [intros [Heq | []]; apply Hne; symmetry; exact Heq | ].
      constructor; [intros [] | constructor].
    + intros d [<- | [<- | []]].
      * split; [left; reflexivity | exact Hc].
      * split; [right; reflexivity | ].
        intros Hin. apply Hr. apply occupied_more. exact Hin.
    + intros _. split; [apply occupied_more, occupied_last | apply occupied_last].
  - exists []. rewrite app_nil_r. split; [reflexivity | ]. split; [constructor | ].
    split; [intros d [] | discriminate].
  - exists [cacheDir env]. split; [reflexivity | ]. split; [ | split].
    + constructor; [intros [] | constructor].
    + intros d [<- | []]. split; [left; reflexivity | exact Hc].
    + discriminate.
Qed.

(** X3: the script creates a directory only where nothing is: the directories
    that existed are all kept, in place; whatever was added is the cache or
    the record directory, is added once, and its path held neither a
    directory nor a file before.  From the fourth log line on something is at
    both paths: a directory, or a file that was there before the run, which
    passes the [existsSync] guard and is left as it was. *)
Theorem directories_created_only_when_missing :
  forall env,
    exists added,
      directories (final (run env)) = existing_directories env ++ added
      /\ NoDup added
      /\ (forall d, In d added ->
            (d = cacheDir env \/ d = recordDir env)
            /\ ~ In d (existing_directories env)
            /\ ~ In d (existing_files env))
      /\ ((4 <= List.length (console (final (run env))))%nat ->
          occupied env (directories (final (run env))) (cacheDir env)
          /\ occupied env (directories (final (run env))) (recordDir env)).
Proof.
  intros env.
  destruct (directories_shape env _ _ (directories_after_run env))
    as (added & Hdirs & Hnodup & Hadded & Hpassed).
  exists added. split; [exact Hdirs | ]. split; [exact Hnodup | ]. split.
  - intros d Hd. destruct (Hadded d Hd) as [Hwhich Hfree].
    split; [exact Hwhich | ].
    split; intros Hin; apply Hfree; [left | right]; exact Hin.
  - intros Hlines. apply Hpassed, Nat.leb_le. exact Hlines.
Qed.

(** A file at the path of the cache directory passes the guard: no directory
    is made there, the fourth line is logged all the same, and the run fails
    at the write that follows. *)
Example file_at_cache_path_is_left_alone :
  directories (final (run env_cache_is_file)) = [recordDir env_cache_is_file]
  /\ ~ In (cacheDir env_cache_is_file) (directories (final (run env_cache_is_file)))
  /\ List.length (console (final (run env_cache_is_file))) = 4%nat
  /\ files (final (run env_cache_is_file)) = []
  /\ exists e, pipeline (run env_cache_is_file) = Failed e.
Proof.
  split; [vm_compute; reflexivity | ].
  split; [vm_compute; intros [H | []]; discriminate H | ].
  split; [vm_compute; reflexivity | ].
  split; [vm_compute; reflexivity | ].
  eexists. vm_compute. reflexivity.
Qed.

Lemma as_documents_id docs : as_documents docs = docs.
Proof.
  unfold as_documents. induction docs as [| [content meta] docs IH]; cbn [map].
  - reflexivity.
  - cbn [pageContent metadata]. rewrite IH. reflexivity.
Qed.

Ltac plain_documents :=
  repeat match goal with
         | H : context [map ?f ?l] |- _ =>
           change (map f l) with (as_documents l) in H; rewrite as_documents_id in H
         end.

(** X4: the chain is only ever asked the configured question, of the store
    that [HNSWLib.fromDocuments] has just returned; that store was built with
    the embeddings client of this run from exactly the documents the splitter
    returned (the conversion to [Document] objects changes none of them), and
    those were split from what the loader selected in the second response. *)
Theorem question_is_put_to_the_store_just_built :
  forall env store question out,
    In (CallChain store question out) (calls (final (run env))) ->
    question = query config
    /\ exists page input chunks emb model,
         http_response env 1 (domain config) = Normal page
         /\ cheerio_select env "li" page = Normal input
         /\ splitDocuments env splitter_params input = Normal chunks
         /\ as_documents chunks = chunks
         /\ new_OpenAIEmbeddings env (embeddings_params env) = Normal emb
         /\ fromDocuments env chunks emb = Normal store
         /\ new_ChatOpenAI env "gpt-3.5-turbo" = Normal model
         /\ out = chain_call env model store (query config).
Proof.
  intros env store question out. revert store question out.
  run_main; finished.
  all: let H := fresh "Hcall" in
       intros store question out H; cbn [In] in H;
       repeat (destruct H as [H | H]; [try discriminate H | ]); try contradiction;
       injection H as <- <- <-.
  all: plain_documents.
  all: split; [reflexivity | ].
  all: do 5 eexists; repeat split; try eassumption; try apply as_documents_id.
  all: symmetry; eassumption.
Qed.

Lemma question_is_put_to_the_store_just_built_witness :
  In (CallChain (mkVectorStore [mkDocument "<ul><li>second</li></ul>"
                                  [("source", "https://news.naver.com/section/100")]]
                   (embeddings_params env_ok))
        (query config) (Normal (mkChainValues "summary" [])))
     (calls (final (run env_ok)))
  /\ exists page input chunks emb model,
       http_response env_ok 1 (domain config) = Normal page
       /\ cheerio_select env_ok "li" page = Normal input
       /\ splitDocuments env_ok splitter_params input = Normal chunks
       /\ as_documents chunks = chunks
       /\ new_OpenAIEmbeddings env_ok (embeddings_params env_ok) = Normal emb
       /\ fromDocuments env_ok chunks emb
          = Normal (mkVectorStore [mkDocument "<ul><li>second</li></ul>"
                                     [("source", "https://news.naver.com/section/100")]]
                      (embeddings_params env_ok))
       /\ new_ChatOpenAI env_ok "gpt-3.5-turbo" = Normal model
       /\ Normal (mkChainValues "summary" [])
          = chain_call env_ok model
              (mkVectorStore [mkDocument "<ul><li>second</li></ul>"
                                [("source", "https://news.naver.com/section/100")]]
                 (embeddings_params env_ok))
              (query config).
Proof.
  assert (Hin : In (CallChain (mkVectorStore [mkDocument "<ul><li>second</li></ul>"
                                  [("source", "https://news.naver.com/section/100")]]
                                 (embeddings_params env_ok))
                      (query config) (Normal (mkChainValues "summary" [])))
                   (calls (final (run env_ok))))
    by (vm_compute; right; right; left; reflexivity).
  split; [exact Hin | ].
  exact (proj2 (question_is_put_to_the_store_just_built env_ok _ _ _ Hin)).
Defined.

(** X5: the loader fetches the page only after it has been cached: when the
    loader has made its request, the request was for the configured URL, the
    one page fetch before it was the one by axios for the same URL, and the
    body axios received is already written under the cache key. *)
Theorem page_is_cached_before_the_loader_fetches :
  forall env url,
    In (CheerioLoader, url) (requests (final (run env))) ->
    url = domain config
    /\ requests (final (run env))
       = [(Axios, domain config); (CheerioLoader, domain config)]
    /\ exists raw,
         http_response env 0 (domain config) = Normal raw
         /\ In (cache_key env 0, raw) (files (final (run env))).
Proof.
  intros env.
  run_main; finished.
  all: let H := fresh "Hloader" in
       intros url H; cbn [In] in H;
       repeat (destruct H as [H | H]; [try discriminate H | ]); try contradiction;
       injection H as <-.
  all: split; [reflexivity | split; [reflexivity | ]].
  all: eexists; split; [first [eassumption | reflexivity] | cbn [In]; left; reflexivity].
Qed.

Lemma page_is_cached_before_the_loader_fetches_witness :
  In (CheerioLoader, domain config) (requests (final (run env_ok)))
  /\ domain config = domain config
  /\ requests (final (run env_ok))
     = [(Axios, domain config); (CheerioLoader, domain config)]
  /\ exists raw,
       http_response env_ok 0 (domain config) = Normal raw
       /\ In (cache_key env_ok 0, raw) (files (final (run env_ok))).
Proof.
  assert (Hin : In (CheerioLoader, domain config) (requests (final (run env_ok))))
    by (vm_compute; right; left; reflexivity).
  split; [exact Hin | ].
  exact (page_is_cached_before_the_loader_fetches env_ok (domain config) Hin).
Defined.

(** X8: a run reaches [Done] exactly when all twelve lines have been logged;
    a run that fails has logged at most ten. *)
Theorem done_exactly_when_twelve_lines :
  forall env,
    (pipeline (run env) = Done <-> List.length (console (final (run env))) = 12%nat)
    /\ (forall e, pipeline (run env) = Failed e ->
          (List.length (console (final (run env))) <= 10)%nat).
Proof.
  intros env.
  run_main; finished.
  all: cbn [List.length].
  all: split;
    [ split; intros H; first [reflexivity | discriminate H]
    | let e' := fresh "e" in let H := fresh "Hfailed" in
      intros e' H; first [discriminate H | lia] ].
Qed.

(** ** Reading the artifacts back *)

Lemma list_ascii_of_append a b :
  list_ascii_of_string (a ++ b) = list_ascii_of_string a ++ list_ascii_of_string b.
Proof.
  induction a as [| c a IH]; cbn [String.append list_ascii_of_string app].
  - reflexivity.
  - rewrite IH. reflexivity.
Qed.

Lemma last_char_append s suffix c :
  last_char suffix = Some c -> last_char (s ++ suffix) = Some c.
Proof.
  unfold last_char. rewrite list_ascii_of_append, rev_app_distr.
  destruct (rev (list_ascii_of_string suffix)) as [| d rest]; [discriminate | ].
  intros H. exact H.
Qed.

Lemma last_char_path_join dir file c :
  last_char file = Some c -> last_char (path_join dir file) = Some c.
Proof.
  intros H. unfold path_join. destruct (String.eqb dir "/").
  - apply last_char_append. exact H.
  - apply last_char_append, last_char_append. exact H.
Qed.

(** The two artifacts of a run never share a path. *)
Lemma keys_differ env i j : cache_key env i <> record_key env j.
Proof.
  intros Heq.
  assert (Hc : last_char (cache_key env i) = Some "l"%char)
    by (apply last_char_path_join, last_char_append; reflexivity).
  assert (Hr : last_char (record_key env j) = Some "t"%char)
    by (apply last_char_path_join, last_char_append; reflexivity).
  rewrite Heq, Hr in Hc. discriminate Hc.
Qed.

Lemma done_run_shape env :
  pipeline (run env) = Done ->
  exists raw reply model store,
    http_response env 0 (domain config) = Normal raw
    /\ chain_call env model store (query config) = Normal reply
    /\ files (final (run env))
       = [(cache_key env 0, raw); (record_key env 1, text reply)]
    /\ nth_error (map logged (console (final (run env)))) 9
       = Some ("QA 응답:" ++ newline ++ " " ++ text reply)%string.
Proof.
  run_main; finished.
  all: lazymatch goal with
       | |- Failed _ = Done -> _ => intros H; discriminate H
       | |- Done = Done -> _ => intros _
       end.
  all: do 4 eexists; split; [first [eassumption | reflexivity] | split; [eassumption | split; reflexivity]].
Qed.

(** X6: after a run that reaches [Done], the file at the cache key holds the
    body axios received and the file at the record key holds the text of the
    answer, the very text logged in the tenth line; the two keys differ, so
    neither write has replaced the other. *)
Theorem done_run_reads_back :
  forall env,
    pipeline (run env) = Done ->
    exists raw reply model store,
      http_response env 0 (domain config) = Normal raw
      /\ chain_call env model store (query config) = Normal reply
      /\ read_file (final (run env)) (cache_key env 0) = Some raw
      /\ read_file (final (run env)) (record_key env 1) = Some (text reply)
      /\ nth_error (map logged (console (final (run env)))) 9
         = Some ("QA 응답:" ++ newline ++ " " ++ text reply)%string
      /\ cache_key env 0 <> record_key env 1.
Proof.
  intros env Hdone.
  destruct (done_run_shape env Hdone) as (raw & reply & model & store & Hraw & Hreply & Hfiles & Hline).
  exists raw, reply, model, store.
  pose proof (keys_differ env 0 1) as Hne.
  assert (Hrc : String.eqb (record_key env 1) (cache_key env 0) = false).
  { apply String.eqb_neq. intros Heq. apply Hne. symmetry. exact Heq. }
  repeat split; try assumption.
  - unfold read_file. rewrite Hfiles. cbn [rev app filter fst snd].
    rewrite Hrc, String.eqb_refl. reflexivity.
  - unfold read_file. rewrite Hfiles. cbn [rev app filter fst snd].
    rewrite String.eqb_refl. reflexivity.
Qed.

Lemma done_run_reads_back_witness :
  pipeline (run env_ok) = Done
  /\ exists raw reply model store,
       http_response env_ok 0 (domain config) = Normal raw
       /\ chain_call env_ok model store (query config) = Normal reply
       /\ read_file (final (run env_ok)) (cache_key env_ok 0) = Some raw
       /\ read_file (final (run env_ok)) (record_key env_ok 1) = Some (text reply)
       /\ nth_error (map logged (console (final (run env_ok)))) 9
          = Some ("QA 응답:" ++ newline ++ " " ++ text reply)%string
       /\ cache_key env_ok 0 <> record_key env_ok 1.
Proof.
  assert (Hdone : pipeline (run env_ok) = Done) by (vm_compute; reflexivity).
  split; [exact Hdone | exact (done_run_reads_back env_ok Hdone)].
Defined.

End TraceFacts.


(* ===================================================================== *)
(** * Further properties of [getCurrentTime]                              *)
(* ===================================================================== *)

Module StampFacts.

Import Program Properties Samples Coverage.

Lemma era_days_invert doe : 0 <= doe < 146097 -> era_day_inverts doe = true.
Proof.
  intros H. apply (MomentFacts.all_below_Z era_day_inverts 146097); [vm_compute; reflexivity | lia].
Qed.

(** The date arithmetic loses nothing: the day number is recovered from the
    date. *)
Lemma days_from_civil_from_days days :
  let '(y, m, d) := Moment.civil_from_days days in days_from_civil y m d = days.
Proof.
  unfold Moment.civil_from_days.
  set (z := days + 719468).
  set (era := z / 146097).
  set (doe := z - era * 146097).
  assert (Hdoe : 0 <= doe < 146097).
  { subst doe era. pose proof (Z.mod_pos_bound z 146097 ltac:(lia)) as Hm.
    rewrite Z.mod_eq in Hm by lia. lia. }
  pose proof (era_days_invert doe Hdoe) as Hok. unfold era_day_inverts in Hok.
  cbv zeta in *.
  set (yoe := (doe - doe / 1460 + doe / 36524 - doe / 146096) / 365) in *.
  set (doy := doe - (365 * yoe + yoe / 4 - yoe / 100)) in *.
  set (mp := (5 * doy + 2) / 153) in *.
  set (d := doy - (153 * mp + 2) / 5 + 1) in *.
  set (m := if mp <? 10 then mp + 3 else mp - 9) in *.
  apply andb_true_iff in Hok as [Hok Hmp]. apply andb_true_iff in Hok as [Hlo Hhi].
  apply Z.eqb_eq in Hmp. apply Z.leb_le in Hlo, Hhi.
  unfold days_from_civil.
  assert (Hy : (if m <=? 2 then (if m <=? 2 then yoe + era * 400 + 1 else yoe + era * 400) - 1
                else (if m <=? 2 then yoe + era * 400 + 1 else yoe + era * 400))
               = yoe + era * 400) by (destruct (m <=? 2); lia).
  rewrite Hy, Hmp.
  assert (Hera : (yoe + era * 400) / 400 = era).
  { symmetry. apply (Z.div_unique _ 400 era yoe); lia. }
  rewrite Hera. replace (yoe + era * 400 - era * 400) with yoe by lia.
  subst d doy doe z. lia.
Qed.

(** The fields of a moment determine its local second. *)
Lemma seconds_of_moment_fields (m : Moment.t) :
  seconds_of_fields (Moment.year m, Moment.month m, Moment.date m,
                     Moment.hours m, Moment.minutes m, Moment.seconds m)
  = Moment.local_seconds m.
Proof.
  unfold seconds_of_fields, Moment.year, Moment.month, Moment.date.
  pose proof (days_from_civil_from_days (Moment.local_seconds m / 86400)) as Hd.
  destruct (Moment.civil_from_days (Moment.local_seconds m / 86400)) as [[y mo] d].
  cbn [fst snd]. rewrite Hd.
  unfold Moment.hours, Moment.minutes, Moment.seconds.
  Z.to_euclidean_division_equations. lia.
Qed.

(** X7: two readings of the wall clock give the same key exactly when they
    fall within the same second. *)
Theorem stamps_equal_iff_same_second :
  forall env, wall_clock_in_range env ->
    forall i j : nat,
      stamp_at env i = stamp_at env j <-> wall_now env i / 1000 = wall_now env j / 1000.
Proof.
  intros env Hrange i j.
  destruct (Hrange i) as [Hi_lo Hi_hi], (Hrange j) as [Hj_lo Hj_hi].
  pose proof (MomentFacts.seoul_timestamp (wall_now env i) ltac:(lia) Hi_hi) as [_ Hpi].
  pose proof (MomentFacts.seoul_timestamp (wall_now env j) ltac:(lia) Hj_hi) as [_ Hpj].
  cbv zeta in Hpi, Hpj. fold (stamp_at env i) in Hpi. fold (stamp_at env j) in Hpj.
  split; intros Heq.
  - rewrite Heq, Hpj in Hpi. injection Hpi as Hy Hmo Hd Hh Hmi Hs.
    pose proof (seconds_of_moment_fields (Moment.tz (wall_now env i) "Asia/Seoul")) as Si.
    pose proof (seconds_of_moment_fields (Moment.tz (wall_now env j) "Asia/Seoul")) as Sj.
    rewrite <- Hy, <- Hmo, <- Hd, <- Hh, <- Hmi, <- Hs, Sj in Si.
    unfold Moment.local_seconds in Si. cbn [Moment.instant_ms Moment.utc_offset_s Moment.tz] in Si.
    lia.
  - unfold stamp_at.
    rewrite (MomentFacts.format_fields (wall_now env i)) by lia.
    rewrite (MomentFacts.format_fields (wall_now env j)) by lia.
    cbv zeta.
    assert (Hls : Moment.local_seconds (Moment.tz (wall_now env i) "Asia/Seoul")
                  = Moment.local_seconds (Moment.tz (wall_now env j) "Asia/Seoul")).
    { unfold Moment.local_seconds. cbn [Moment.instant_ms Moment.utc_offset_s Moment.tz].
      rewrite Heq. reflexivity. }
    unfold Moment.year, Moment.month, Moment.date, Moment.hours, Moment.minutes,
      Moment.seconds. rewrite Hls. reflexivity.
Qed.

Lemma stamps_equal_iff_same_second_witness :
  wall_clock_in_range env_ok
  /\ (stamp_at env_ok 0 = stamp_at env_ok 1
      <-> wall_now env_ok 0 / 1000 = wall_now env_ok 1 / 1000).
Proof.
  split; [exact Artifacts.env_ok_wall_clock | ].
  exact (stamps_equal_iff_same_second env_ok Artifacts.env_ok_wall_clock 0%nat 1%nat).
Defined.

End StampFacts.
